(** * Movies API (3lab/crud.py): a shallow embedding and its CRUD contract

    The service maps ten HTTP routes (five per resource, plus a welcome
    route) onto one SQL statement each.  The route handlers are embedded as
    programs over the four connection methods they await ([fetch],
    [fetchrow], [fetchval], [execute]); the database behind the connection
    is a state transformer over two tables. *)

From Stdlib Require Import ZArith List String Ascii Bool Lia Arith.
From Stdlib Require Import Decimal DecimalString DecimalNat Permutation.
From ExtLib Require Import Structures.Monad.
Import ListNotations.
Import MonadNotation.

Local Open Scope string_scope.
Local Open Scope Z_scope.
Local Open Scope monad_scope.

(** ** Python values *)

(** The values that cross the connection: [None], [int] and [str]. *)
Inductive Value : Type :=
| VNone
| VInt (n : Z)
| VStr (s : string).

(** A [dict] with string keys; also the shape of an [asyncpg.Record]
    (an ordered mapping from column names to values). *)
Definition Dict : Type := list (string * Value).
Definition Record_ : Type := Dict.

(** Exceptions that can leave a handler.  [HTTPException] is the only one
    the handlers raise themselves; the others come from subscripting
    (a missing key, or [None]), from model validation and from the
    database. *)
Inductive Exn : Type :=
| HTTPException (status_code : Z) (detail : string)
| KeyError (key : string)
| TypeError
| ValidationError (field : string)
| UniqueViolationError.

(** ** The pydantic models *)

Module MovieBase.
Record t : Type := Build { name : string; description : string; popularity : Z }.
End MovieBase.

Definition MovieCreate : Type := MovieBase.t.

Module Movie.
Record t : Type :=
  Build { name : string; description : string; popularity : Z; id : Z }.
End Movie.

Module GenreBase.
Record t : Type := Build { name : string; description : string; popularity : Z }.
End GenreBase.

Definition GenreCreate : Type := GenreBase.t.

Module Genre.
Record t : Type :=
  Build { name : string; description : string; popularity : Z; id : Z }.
End Genre.

(** ** SQL statements

    The ten statement texts of the source, with their bound parameters. *)

Inductive TableName : Type := T_movies | T_genres.

Inductive Sql : Type :=
| SelectAll (t : TableName)
    (* SELECT * FROM t *)
| SelectWhereId (t : TableName) (id : Z)
    (* SELECT * FROM t WHERE id = $1 *)
| InsertReturningId (t : TableName) (name description : string) (popularity : Z)
    (* INSERT INTO t (name, description, popularity) VALUES ($1, $2, $3) RETURNING id *)
| UpdateWhereId (t : TableName) (name description : string) (popularity : Z) (id : Z)
    (* UPDATE t SET name = $1, description = $2, popularity = $3 WHERE id = $4 *)
| DeleteWhereId (t : TableName) (id : Z).
    (* DELETE FROM t WHERE id = $1 *)

(** ** Handlers as programs over the connection *)

(** A coroutine body: it returns, raises, or awaits one of the connection
    methods and continues with the awaited value. *)
Inductive Handler (A : Type) : Type :=
| Return (a : A)
| Raise (e : Exn)
| Fetch (q : Sql) (k : list Record_ -> Handler A)
| FetchRow (q : Sql) (k : option Record_ -> Handler A)
| FetchVal (q : Sql) (k : Value -> Handler A)
| Execute (q : Sql) (k : string -> Handler A).

Arguments Return {A} a.
Arguments Raise {A} e.
Arguments Fetch {A} q k.
Arguments FetchRow {A} q k.
Arguments FetchVal {A} q k.
Arguments Execute {A} q k.

Fixpoint hbind {A B : Type} (h : Handler A) (f : A -> Handler B) : Handler B :=
  match h with
  | Return a => f a
  | Raise e => Raise e
  | Fetch q k => Fetch q (fun x => hbind (k x) f)
  | FetchRow q k => FetchRow q (fun x => hbind (k x) f)
  | FetchVal q k => FetchVal q (fun x => hbind (k x) f)
  | Execute q k => Execute q (fun x => hbind (k x) f)
  end.

#[global] Instance Monad_Handler : Monad Handler :=
  {| ret := @Return; bind := @hbind |}.

(** [await connection.fetch(q)] and its three siblings. *)
Definition fetch (q : Sql) : Handler (list Record_) := Fetch q Return.
Definition fetchrow (q : Sql) : Handler (option Record_) := FetchRow q Return.
Definition fetchval (q : Sql) : Handler Value := FetchVal q Return.
Definition execute (q : Sql) : Handler string := Execute q Return.

(** The value a [dict] holds for a key. *)
Fixpoint lookup (key : string) (d : Dict) : option Value :=
  match d with
  | [] => None
  | (k, v) :: d' => if String.eqb k key then Some v else lookup key d'
  end.

(** The column a record holds for a name: when several columns carry the
    name, the last of them. *)
Fixpoint lookup_last (key : string) (d : Record_) : option Value :=
  match d with
  | [] => None
  | (k, v) :: d' =>
      match lookup_last key d' with
      | Some v' => Some v'
      | None => if String.eqb k key then Some v else None
      end
  end.

(** [record[key]]: the column of that name, or [KeyError]. *)
Definition getitem (d : Record_) (key : string) : Handler Value :=
  match lookup_last key d with
  | Some v => Return v
  | None => Raise (KeyError key)
  end.

(** Field validation of the models: a [str] field takes a [str], an [int]
    field an [int]; a missing keyword argument or [None] is a validation
    error.  The conversions the validation library may apply to a value of
    the other type (a numeric [str] given for an [int] field) are not
    modelled: such a value is rejected here.  The handlers pass the request
    body and the path id, which have the types of their fields, and what
    the connection delivers; statements over arbitrary connections say so
    where they need the delivered values to be of the field's type. *)
Definition field_str (kwargs : Dict) (key : string) : Handler string :=
  match lookup key kwargs with
  | Some (VStr s) => Return s
  | _ => Raise (ValidationError key)
  end.

Definition field_int (kwargs : Dict) (key : string) : Handler Z :=
  match lookup key kwargs with
  | Some (VInt n) => Return n
  | _ => Raise (ValidationError key)
  end.

(** The [Movie] constructor applied to keyword arguments. *)
Definition Movie_init (kwargs : Dict) : Handler Movie.t :=
  name <- field_str kwargs "name" ;;
  description <- field_str kwargs "description" ;;
  popularity <- field_int kwargs "popularity" ;;
  id <- field_int kwargs "id" ;;
  ret (Movie.Build name description popularity id).

(** The [Genre] constructor applied to keyword arguments. *)
Definition Genre_init (kwargs : Dict) : Handler Genre.t :=
  name <- field_str kwargs "name" ;;
  description <- field_str kwargs "description" ;;
  popularity <- field_int kwargs "popularity" ;;
  id <- field_int kwargs "id" ;;
  ret (Genre.Build name description popularity id).

(** [movie.dict()] and [genre.dict()] *)
Definition MovieCreate_dict (movie : MovieCreate) : Dict :=
  [ ("name", VStr (MovieBase.name movie));
    ("description", VStr (MovieBase.description movie));
    ("popularity", VInt (MovieBase.popularity movie)) ].

Definition GenreCreate_dict (genre : GenreCreate) : Dict :=
  [ ("name", VStr (GenreBase.name genre));
    ("description", VStr (GenreBase.description genre));
    ("popularity", VInt (GenreBase.popularity genre)) ].

(** A list comprehension whose element expression may raise. *)
Fixpoint comprehension {X Y : Type} (f : X -> Handler Y) (xs : list X)
  : Handler (list Y) :=
  match xs with
  | [] => ret []
  | x :: xs' => y <- f x ;; ys <- comprehension f xs' ;; ret (y :: ys)
  end.

(** Truth value of what [fetchrow] gives back: [None] is false, and a
    record is true when it has at least one column. *)
Definition truthy (r : option Record_) : bool :=
  match r with
  | Some (_ :: _) => true
  | _ => false
  end.

(** ** The route handlers *)

Definition read_root : Handler Dict :=
  ret [("message", VStr "Welcome to the Movies API!")].

Definition Movie_of_record (movie : Record_) : Handler Movie.t :=
  v_id <- getitem movie "id" ;;
  v_name <- getitem movie "name" ;;
  v_description <- getitem movie "description" ;;
  v_popularity <- getitem movie "popularity" ;;
  Movie_init [("id", v_id); ("name", v_name);
              ("description", v_description); ("popularity", v_popularity)].

Definition read_movies : Handler (list Movie.t) :=
  movies <- fetch (SelectAll T_movies) ;;
  comprehension Movie_of_record movies.

Definition read_movie (id : Z) : Handler Movie.t :=
  movie <- fetchrow (SelectWhereId T_movies id) ;;
  if truthy movie then
    match movie with
    | Some movie => Movie_of_record movie
    | None => Raise TypeError
    end
  else Raise (HTTPException 404 "Movie not found").

Definition create_movie (movie : MovieCreate) : Handler Movie.t :=
  new_movie_id <- fetchval (InsertReturningId T_movies (MovieBase.name movie)
                              (MovieBase.description movie)
                              (MovieBase.popularity movie)) ;;
  Movie_init (("id", new_movie_id) :: MovieCreate_dict movie).

Definition update_movie (movie_id : Z) (updated_movie : MovieCreate)
  : Handler Movie.t :=
  result <- execute (UpdateWhereId T_movies (MovieBase.name updated_movie)
                       (MovieBase.description updated_movie)
                       (MovieBase.popularity updated_movie) movie_id) ;;
  if String.eqb result "UPDATE 0" then
    Raise (HTTPException 404 "Movie not found")
  else Movie_init (("id", VInt movie_id) :: MovieCreate_dict updated_movie).

Definition delete_movie (movie_id : Z) : Handler Dict :=
  result <- execute (DeleteWhereId T_movies movie_id) ;;
  if String.eqb result "DELETE 0" then
    Raise (HTTPException 404 "Movie not found")
  else ret [("message", VStr "Movie deleted")].

Definition Genre_of_record (genre : Record_) : Handler Genre.t :=
  v_id <- getitem genre "id" ;;
  v_name <- getitem genre "name" ;;
  v_description <- getitem genre "description" ;;
  v_popularity <- getitem genre "popularity" ;;
  Genre_init [("id", v_id); ("name", v_name);
              ("description", v_description); ("popularity", v_popularity)].

Definition read_genres : Handler (list Genre.t) :=
  genres <- fetch (SelectAll T_genres) ;;
  comprehension Genre_of_record genres.

Definition read_genre (id : Z) : Handler Genre.t :=
  genre <- fetchrow (SelectWhereId T_genres id) ;;
  if truthy genre then
    match genre with
    | Some genre => Genre_of_record genre
    | None => Raise TypeError
    end
  else Raise (HTTPException 404 "Genre not found").

Definition create_genre (genre : GenreCreate) : Handler Genre.t :=
  new_genre_id <- fetchval (InsertReturningId T_genres (GenreBase.name genre)
                              (GenreBase.description genre)
                              (GenreBase.popularity genre)) ;;
  Genre_init (("id", new_genre_id) :: GenreCreate_dict genre).

Definition update_genre (genre_id : Z) (updated_genre : GenreCreate)
  : Handler Genre.t :=
  result <- execute (UpdateWhereId T_genres (GenreBase.name updated_genre)
                       (GenreBase.description updated_genre)
                       (GenreBase.popularity updated_genre) genre_id) ;;
  if String.eqb result "UPDATE 0" then
    Raise (HTTPException 404 "Genre not found")
  else Genre_init (("id", VInt genre_id) :: GenreCreate_dict updated_genre).

Definition delete_genre (genre_id : Z) : Handler Dict :=
  result <- execute (DeleteWhereId T_genres genre_id) ;;
  if String.eqb result "DELETE 0" then
    Raise (HTTPException 404 "Genre not found")
  else ret [("message", VStr "Genre deleted")].

(** ** The database behind the connection *)

(** Modelled from the spec: the schema and the SQL engine are not part of
    the repository.  Section 6 of the specification gives both tables the
    columns [id] (auto-incrementing integer primary key), [name] (text),
    [description] (text) and [popularity] (integer).  A table is its rows
    in scan order together with the next value of the id sequence.  An
    [UPDATE] writes a new version of each matching row, which a scan meets
    after the rows that were left alone; a [DELETE] drops the matching
    rows; an [INSERT] takes the next sequence value (consumed even when the
    insert is rejected) and appends the row unless the key exists already.
    The integer columns are unbounded, like the [int] fields of the
    models. *)
Record Tuple : Type :=
  { col_id : Z; col_name : string; col_description : string; col_popularity : Z }.

Record Table : Type := { rows : list Tuple; id_seq : Z }.

Record Database : Type := { tbl_movies : Table; tbl_genres : Table }.

Definition empty_table : Table := {| rows := []; id_seq := 1 |}.
Definition empty_db : Database :=
  {| tbl_movies := empty_table; tbl_genres := empty_table |}.

Definition get_table (t : TableName) (db : Database) : Table :=
  match t with
  | T_movies => tbl_movies db
  | T_genres => tbl_genres db
  end.

Definition set_table (t : TableName) (tb : Table) (db : Database) : Database :=
  match t with
  | T_movies => {| tbl_movies := tb; tbl_genres := tbl_genres db |}
  | T_genres => {| tbl_movies := tbl_movies db; tbl_genres := tb |}
  end.

(** The record a [SELECT *] yields for a stored row. *)
Definition record_of (r : Tuple) : Record_ :=
  [ ("id", VInt (col_id r)); ("name", VStr (col_name r));
    ("description", VStr (col_description r));
    ("popularity", VInt (col_popularity r)) ].

Definition has_id (i : Z) (r : Tuple) : bool := col_id r =? i.

Definition ids (tb : Table) : list Z := map col_id (rows tb).

(** Decimal numerals of the command tags. *)
Definition decimal (n : nat) : string := NilEmpty.string_of_uint (Nat.to_uint n).

Definition tag (verb : string) (n : nat) : string := verb ++ " " ++ decimal n.

(** What the server answers to a statement: the rows it returns and the
    command tag, or an error. *)
Definition Answer : Type := (list Record_ * string)%type.

(** The rows a [WHERE id = $n] clause selects. *)
Definition matching (i : Z) (tb : Table) : list Tuple := filter (has_id i) (rows tb).

Definition updated (i : Z) (name description : string) (popularity : Z) (r : Tuple)
  : Tuple :=
  if has_id i r then Build_Tuple (col_id r) name description popularity else r.

Definition table_update (i : Z) (name description : string) (popularity : Z)
    (tb : Table) : Table :=
  {| rows := (filter (fun r => negb (has_id i r)) (rows tb)
              ++ map (updated i name description popularity) (matching i tb))%list;
     id_seq := id_seq tb |}.

Definition table_delete (i : Z) (tb : Table) : Table :=
  {| rows := filter (fun r => negb (has_id i r)) (rows tb); id_seq := id_seq tb |}.

Definition table_insert (name description : string) (popularity : Z) (tb : Table)
  : Table :=
  {| rows := (rows tb ++ [Build_Tuple (id_seq tb) name description popularity])%list;
     id_seq := id_seq tb + 1 |}.

(** A rejected insert leaves the rows alone but has used up its id. *)
Definition table_skip (tb : Table) : Table :=
  {| rows := rows tb; id_seq := id_seq tb + 1 |}.

(** Modelled from the spec: how the server executes each statement on the
    tables above (the SQL engine is not part of the repository): the rows
    it returns, its command tag, and the new database. *)
Definition pg_exec (q : Sql) (db : Database) : (Exn + Answer) * Database :=
  match q with
  | SelectAll t =>
      let out := map record_of (rows (get_table t db)) in
      (inr (out, tag "SELECT" (List.length out)), db)
  | SelectWhereId t i =>
      let out := map record_of (matching i (get_table t db)) in
      (inr (out, tag "SELECT" (List.length out)), db)
  | InsertReturningId t name description popularity =>
      let tb := get_table t db in
      if existsb (has_id (id_seq tb)) (rows tb) then
        (inl UniqueViolationError, set_table t (table_skip tb) db)
      else
        (inr ([[("id", VInt (id_seq tb))]], "INSERT 0 1"),
         set_table t (table_insert name description popularity tb) db)
  | UpdateWhereId t name description popularity i =>
      let tb := get_table t db in
      (inr ([], tag "UPDATE" (List.length (matching i tb))),
       set_table t (table_update i name description popularity tb) db)
  | DeleteWhereId t i =>
      let tb := get_table t db in
      (inr ([], tag "DELETE" (List.length (matching i tb))),
       set_table t (table_delete i tb) db)
  end.

(** The four connection methods, as views of the server's answer. *)
Definition first_value (out : list Record_) : Value :=
  match out with
  | ((_, v) :: _) :: _ => v
  | _ => VNone
  end.

(** Outcome of a handler: the exception that left it, or its value. *)
Definition Outcome (A : Type) : Type := (Exn + A)%type.

Fixpoint run {A : Type} (h : Handler A) (db : Database) : Outcome A * Database :=
  match h with
  | Return a => (inr a, db)
  | Raise e => (inl e, db)
  | Fetch q k =>
      match pg_exec q db with
      | (inl e, db') => (inl e, db')
      | (inr (out, _), db') => run (k out) db'
      end
  | FetchRow q k =>
      match pg_exec q db with
      | (inl e, db') => (inl e, db')
      | (inr (out, _), db') => run (k (hd_error out)) db'
      end
  | FetchVal q k =>
      match pg_exec q db with
      | (inl e, db') => (inl e, db')
      | (inr (out, _), db') => run (k (first_value out)) db'
      end
  | Execute q k =>
      match pg_exec q db with
      | (inl e, db') => (inl e, db')
      | (inr (_, status), db') => run (k status) db'
      end
  end.

(** ** Routing *)

Inductive Request : Type :=
| GET_root
| GET_movies
| GET_movie (id : Z)
| POST_movies (movie : MovieCreate)
| PUT_movie (movie_id : Z) (updated_movie : MovieCreate)
| DELETE_movie (movie_id : Z)
| GET_genres
| GET_genre (id : Z)
| POST_genres (genre : GenreCreate)
| PUT_genre (genre_id : Z) (updated_genre : GenreCreate)
| DELETE_genre (genre_id : Z).

(** What a handler hands back to the framework for serialisation. *)
Inductive Payload : Type :=
| JsonDict (d : Dict)
| JsonMovie (m : Movie.t)
| JsonMovies (ms : list Movie.t)
| JsonGenre (g : Genre.t)
| JsonGenres (gs : list Genre.t).

Definition app (req : Request) : Handler Payload :=
  match req with
  | GET_root => d <- read_root ;; ret (JsonDict d)
  | GET_movies => ms <- read_movies ;; ret (JsonMovies ms)
  | GET_movie id => m <- read_movie id ;; ret (JsonMovie m)
  | POST_movies movie => m <- create_movie movie ;; ret (JsonMovie m)
  | PUT_movie movie_id updated_movie =>
      m <- update_movie movie_id updated_movie ;; ret (JsonMovie m)
  | DELETE_movie movie_id => d <- delete_movie movie_id ;; ret (JsonDict d)
  | GET_genres => gs <- read_genres ;; ret (JsonGenres gs)
  | GET_genre id => g <- read_genre id ;; ret (JsonGenre g)
  | POST_genres genre => g <- create_genre genre ;; ret (JsonGenre g)
  | PUT_genre genre_id updated_genre =>
      g <- update_genre genre_id updated_genre ;; ret (JsonGenre g)
  | DELETE_genre genre_id => d <- delete_genre genre_id ;; ret (JsonDict d)
  end.

(** Status code of the HTTP response: 200 for a returned value, the code
    of an [HTTPException], 500 for any other exception. *)
Definition status_code {A : Type} (o : Outcome A) : Z :=
  match o with
  | inr _ => 200
  | inl (HTTPException code _) => code
  | inl _ => 500
  end.



(** ** Resource-generic view of the routes *)

(** The five operations every resource offers. *)
Inductive Op : Type :=
| List_
| Get (id : Z)
| Create (name description : string) (popularity : Z)
| Update (id : Z) (name description : string) (popularity : Z)
| Delete (id : Z).

(** The route table: which request an operation on a resource is. *)
Definition route (t : TableName) (op : Op) : Request :=
  match t, op with
  | T_movies, List_ => GET_movies
  | T_movies, Get i => GET_movie i
  | T_movies, Create n d p => POST_movies (MovieBase.Build n d p)
  | T_movies, Update i n d p => PUT_movie i (MovieBase.Build n d p)
  | T_movies, Delete i => DELETE_movie i
  | T_genres, List_ => GET_genres
  | T_genres, Get i => GET_genre i
  | T_genres, Create n d p => POST_genres (GenreBase.Build n d p)
  | T_genres, Update i n d p => PUT_genre i (GenreBase.Build n d p)
  | T_genres, Delete i => DELETE_genre i
  end.

(** The statement an operation on a resource stands for. *)
Definition statement (t : TableName) (op : Op) : Sql :=
  match op with
  | List_ => SelectAll t
  | Get i => SelectWhereId t i
  | Create n d p => InsertReturningId t n d p
  | Update i n d p => UpdateWhereId t n d p i
  | Delete i => DeleteWhereId t i
  end.

Definition resource_name (t : TableName) : string :=
  match t with
  | T_movies => "Movie"
  | T_genres => "Genre"
  end.

Definition not_found (t : TableName) : Exn :=
  HTTPException 404 (resource_name t ++ " not found").

Definition deleted (t : TableName) : Payload :=
  JsonDict [("message", VStr (resource_name t ++ " deleted"))].

Definition json_object (t : TableName) (i : Z) (n d : string) (p : Z) : Payload :=
  match t with
  | T_movies => JsonMovie (Movie.Build n d p i)
  | T_genres => JsonGenre (Genre.Build n d p i)
  end.

Definition Movie_of_tuple (r : Tuple) : Movie.t :=
  Movie.Build (col_name r) (col_description r) (col_popularity r) (col_id r).

Definition Genre_of_tuple (r : Tuple) : Genre.t :=
  Genre.Build (col_name r) (col_description r) (col_popularity r) (col_id r).

Definition json_of_tuple (t : TableName) (r : Tuple) : Payload :=
  json_object t (col_id r) (col_name r) (col_description r) (col_popularity r).

Definition json_list (t : TableName) (rs : list Tuple) : Payload :=
  match t with
  | T_movies => JsonMovies (map Movie_of_tuple rs)
  | T_genres => JsonGenres (map Genre_of_tuple rs)
  end.

(** Ids and number of the resource objects a payload carries. *)
Definition payload_ids (p : Payload) : list Z :=
  match p with
  | JsonDict _ => []
  | JsonMovie m => [Movie.id m]
  | JsonMovies ms => map Movie.id ms
  | JsonGenre g => [Genre.id g]
  | JsonGenres gs => map Genre.id gs
  end.

Definition payload_length (p : Payload) : nat := List.length (payload_ids p).

(** The statements a handler sends while it runs, in order. *)
Fixpoint issued {A : Type} (h : Handler A) (db : Database) : list Sql :=
  match h with
  | Return _ | Raise _ => []
  | Fetch q k =>
      q :: match pg_exec q db with
           | (inl _, _) => []
           | (inr (out, _), db') => issued (k out) db'
           end
  | FetchRow q k =>
      q :: match pg_exec q db with
           | (inl _, _) => []
           | (inr (out, _), db') => issued (k (hd_error out)) db'
           end
  | FetchVal q k =>
      q :: match pg_exec q db with
           | (inl _, _) => []
           | (inr (out, _), db') => issued (k (first_value out)) db'
           end
  | Execute q k =>
      q :: match pg_exec q db with
           | (inl _, _) => []
           | (inr (_, status), db') => issued (k status) db'
           end
  end.

(** ** State invariant: the primary key and its sequence *)

Definition wf_table (tb : Table) : Prop :=
  NoDup (ids tb) /\ Forall (fun i => i < id_seq tb) (ids tb).

Definition wf_db (db : Database) : Prop :=
  wf_table (tbl_movies db) /\ wf_table (tbl_genres db).

(** States the service reaches from empty tables. *)
Inductive reachable : Database -> Prop :=
| reachable_empty : reachable empty_db
| reachable_step req db : reachable db -> reachable (snd (run (app req) db)).

(** ** Comparing two versions of a table *)

Definition Tuple_eqb (a b : Tuple) : bool :=
  (col_id a =? col_id b) && String.eqb (col_name a) (col_name b)
  && String.eqb (col_description a) (col_description b)
  && (col_popularity a =? col_popularity b).

(** Rows of [tb] that are not rows of [tb'] any more: deleted or rewritten. *)
Definition vanished (tb tb' : Table) : list Tuple :=
  filter (fun r => negb (existsb (Tuple_eqb r) (rows tb'))) (rows tb).

(** Rows of [tb'] that were not rows of [tb]: inserted or rewritten. *)
Definition appeared (tb tb' : Table) : list Tuple := vanished tb' tb.

Definition other (t : TableName) : TableName :=
  match t with
  | T_movies => T_genres
  | T_genres => T_movies
  end.

(** What the statement of an operation does to the table it names. *)
Definition effect (op : Op) (tb : Table) : Table :=
  match op with
  | List_ | Get _ => tb
  | Create n d p =>
      if existsb (has_id (id_seq tb)) (rows tb) then table_skip tb
      else table_insert n d p tb
  | Update i n d p => table_update i n d p tb
  | Delete i => table_delete i tb
  end.

(** A handler that awaits nothing: it only returns or raises. *)
Definition pure {A : Type} (o : Outcome A) : Handler A :=
  match o with
  | inl e => Raise e
  | inr a => Return a
  end.

(** ** Substituting Genre for Movie *)

(** [replace_from old new skip s]: [s] with every occurrence of [old]
    replaced by [new], scanning from the left; the first [skip] characters
    belong to an occurrence already replaced. *)
Fixpoint replace_from (old new : string) (skip : nat) (s : string) : string :=
  match s with
  | EmptyString => EmptyString
  | String c s' =>
      match skip with
      | S skip' => replace_from old new skip' s'
      | O =>
          if String.prefix old s
          then new ++ replace_from old new (Nat.pred (String.length old)) s'
          else String c (replace_from old new 0 s')
      end
  end.

Definition substitute_Genre (s : string) : string := replace_from "Movie" "Genre" 0 s.

Definition Genre_of_Movie (m : Movie.t) : Genre.t :=
  Genre.Build (Movie.name m) (Movie.description m) (Movie.popularity m) (Movie.id m).

Definition mirror_value (v : Value) : Value :=
  match v with
  | VStr s => VStr (substitute_Genre s)
  | _ => v
  end.

(** The Genre reading of what a Movie handler returns: the model class is
    swapped, and so is the resource name in a message. *)
Definition mirror_payload (p : Payload) : Payload :=
  match p with
  | JsonDict d => JsonDict (map (fun kv => (fst kv, mirror_value (snd kv))) d)
  | JsonMovie m => JsonGenre (Genre_of_Movie m)
  | JsonMovies ms => JsonGenres (map Genre_of_Movie ms)
  | JsonGenre g => JsonGenre g
  | JsonGenres gs => JsonGenres gs
  end.

Definition mirror_exn (e : Exn) : Exn :=
  match e with
  | HTTPException code detail => HTTPException code (substitute_Genre detail)
  | _ => e
  end.

Definition mirror_sql (q : Sql) : Sql :=
  match q with
  | SelectAll t => SelectAll (other t)
  | SelectWhereId t i => SelectWhereId (other t) i
  | InsertReturningId t n d p => InsertReturningId (other t) n d p
  | UpdateWhereId t n d p i => UpdateWhereId (other t) n d p i
  | DeleteWhereId t i => DeleteWhereId (other t) i
  end.

(** A handler with the table of its statements and the resource name of
    its exceptions substituted, and its return value converted by [fr]. *)
Fixpoint substitute {A B : Type} (fr : A -> B) (h : Handler A) : Handler B :=
  match h with
  | Return a => Return (fr a)
  | Raise e => Raise (mirror_exn e)
  | Fetch q k => Fetch (mirror_sql q) (fun x => substitute fr (k x))
  | FetchRow q k => FetchRow (mirror_sql q) (fun x => substitute fr (k x))
  | FetchVal q k => FetchVal (mirror_sql q) (fun x => substitute fr (k x))
  | Execute q k => Execute (mirror_sql q) (fun x => substitute fr (k x))
  end.

(** The Genre routes as the specification words them: the Movie routes
    with Genre substituted for Movie. *)
Definition genre_route_spec (op : Op) : Handler Payload :=
  substitute mirror_payload (app (route T_movies op)).

Definition mirror_outcome (o : Outcome Payload) : Outcome Payload :=
  match o with
  | inl e => inl (mirror_exn e)
  | inr p => inr (mirror_payload p)
  end.

(** The database with the two tables exchanged. *)
Definition swap (db : Database) : Database :=
  {| tbl_movies := tbl_genres db; tbl_genres := tbl_movies db |}.

(** Two handlers are the same program when they agree node by node,
    whatever value an await delivers. *)
Inductive same_program {A : Type} : Handler A -> Handler A -> Prop :=
| same_Return a : same_program (Return a) (Return a)
| same_Raise e : same_program (Raise e) (Raise e)
| same_Fetch q k k' :
    (forall x, same_program (k x) (k' x)) -> same_program (Fetch q k) (Fetch q k')
| same_FetchRow q k k' :
    (forall x, same_program (k x) (k' x)) -> same_program (FetchRow q k) (FetchRow q k')
| same_FetchVal q k k' :
    (forall x, same_program (k x) (k' x)) -> same_program (FetchVal q k) (FetchVal q k')
| same_Execute q k k' :
    (forall x, same_program (k x) (k' x)) -> same_program (Execute q k) (Execute q k').

(** ** Handlers over an arbitrary connection *)

(** The statement a handler awaits next, and how it continues with the
    server's answer. *)
Definition awaited {A : Type} (h : Handler A) : option (Sql * (Answer -> Handler A)) :=
  match h with
  | Return _ | Raise _ => None
  | Fetch q k => Some (q, fun ans => k (fst ans))
  | FetchRow q k => Some (q, fun ans => k (hd_error (fst ans)))
  | FetchVal q k => Some (q, fun ans => k (first_value (fst ans)))
  | Execute q k => Some (q, fun ans => k (snd ans))
  end.

Section Connection.

(** Whatever stands behind the connection: its states, and the answers
    and successor states it may give to a statement. *)
Variable World : Type.
Variable answers : Sql -> World -> Exn + Answer -> World -> Prop.

Inductive runs {A : Type} : Handler A -> World -> Outcome A -> World -> Prop :=
| runs_Return a w : runs (Return a) w (inr a) w
| runs_Raise e w : runs (Raise e) w (inl e) w
| runs_error h q k w e w' :
    awaited h = Some (q, k) ->
    answers q w (inl e) w' ->
    runs h w (inl e) w'
| runs_answer h q k w ans w' o w'' :
    awaited h = Some (q, k) ->
    answers q w (inr ans) w' ->
    runs (k ans) w' o w'' ->
    runs h w o w''.

End Connection.

Arguments runs {World} answers {A} _ _ _ _.

(** The modelled database as a connection. *)
Definition pg_answers (q : Sql) (db : Database) (a : Exn + Answer) (db' : Database)
  : Prop :=
  pg_exec q db = (a, db').

(** ** Serving a sequence of requests *)

(** The ids a request hands out: those in the response of a successful
    create on table [t]. *)
Definition created_by (t : TableName) (req : Request) (o : Outcome Payload) : list Z :=
  match t, req, o with
  | T_movies, POST_movies _, inr p => payload_ids p
  | T_genres, POST_genres _, inr p => payload_ids p
  | _, _, _ => []
  end.

(** The ids handed out on table [t] while the requests are served one
    after the other. *)
Fixpoint created (t : TableName) (reqs : list Request) (db : Database) : list Z :=
  match reqs with
  | [] => []
  | req :: reqs' =>
      (created_by t req (fst (run (app req) db))
       ++ created t reqs' (snd (run (app req) db)))%list
  end.

(** A small populated database for concrete runs. *)
Definition sample_db : Database :=
  {| tbl_movies :=
       {| rows := [ Build_Tuple 1 "Dune" "Sci-fi epic" 95;
                    Build_Tuple 2 "Alien" "Horror" 90 ];
          id_seq := 3 |};
     tbl_genres :=
       {| rows := [ Build_Tuple 1 "Drama" "Serious" 50 ]; id_seq := 2 |} |}.

(** ** Shapes of programs and of responses *)

(** The handler sends [q] and, whatever the answer, nothing after it. *)
Definition sends_only {A : Type} (q : Sql) (h : Handler A) : Prop :=
  exists k, awaited h = Some (q, k) /\ forall ans, awaited (k ans) = None.

(** What the response of a write operation is made of: the request, and
    for a create an id the request does not carry. *)
Definition echoes (t : TableName) (op : Op) (obj : Payload) : Prop :=
  match op with
  | List_ | Get _ => True
  | Create n d p => exists i, obj = json_object t i n d p
  | Update i n d p => obj = json_object t i n d p
  | Delete _ => obj = deleted t
  end.

Definition not_http (e : Exn) : Prop :=
  match e with
  | HTTPException _ _ => False
  | _ => True
  end.

(** A second database with the movies of [sample_db] and other genres. *)
Definition sample_db' : Database :=
  {| tbl_movies := tbl_movies sample_db;
     tbl_genres := {| rows := [ Build_Tuple 4 "Western" "Dusty" 3 ]; id_seq := 9 |} |}.

(** The resource objects of a payload, one by one. *)
Definition items (p : Payload) : list Payload :=
  match p with
  | JsonMovies ms => map JsonMovie ms
  | JsonGenres gs => map JsonGenre gs
  | _ => []
  end.

(** ** Basic facts about the interpreter *)

Lemma run_bind {A B : Type} (h : Handler A) (f : A -> Handler B) db :
  run (bind h f) db =
  match run h db with
  | (inl e, db') => (inl e, db')
  | (inr a, db') => run (f a) db'
  end.
Proof.
  revert db. induction h as [a|e|q k IH|q k IH|q k IH|q k IH]; intros db;
    simpl; try reflexivity;
    destruct (pg_exec q db) as [[e|[out st]] db']; auto; apply IH.
Qed.

Lemma run_ret {A : Type} (a : A) db : run (ret a) db = (inr a, db).
Proof. reflexivity. Qed.

Lemma issued_bind {A B : Type} (h : Handler A) (f : A -> Handler B) db :
  issued (bind h f) db =
  (issued h db ++ match run h db with
                  | (inl _, _) => []
                  | (inr a, db') => issued (f a) db'
                  end)%list.
Proof.
  revert db. induction h as [a|e|q k IH|q k IH|q k IH|q k IH]; intros db;
    simpl; try reflexivity;
    destruct (pg_exec q db) as [[e|[out st]] db']; simpl; f_equal; auto; apply IH.
Qed.

Lemma Movie_of_record_of r : Movie_of_record (record_of r) = Return (Movie_of_tuple r).
Proof. reflexivity. Qed.

Lemma Genre_of_record_of r : Genre_of_record (record_of r) = Return (Genre_of_tuple r).
Proof. reflexivity. Qed.

Lemma comprehension_records {Y : Type} (f : Record_ -> Handler Y) (g : Tuple -> Y) rs :
  (forall r, f (record_of r) = Return (g r)) ->
  comprehension f (map record_of rs) = Return (map g rs).
Proof.
  intros Hf. induction rs as [|r rs IH]; simpl; [reflexivity|].
  rewrite Hf. simpl. rewrite IH. reflexivity.
Qed.

(** ** Command tags *)

Lemma decimal_inj n m : decimal n = decimal m -> n = m.
Proof.
  unfold decimal. intros H.
  apply (f_equal NilEmpty.uint_of_string) in H.
  rewrite !NilEmpty.usu in H. injection H as H.
  apply (f_equal Nat.of_uint) in H.
  now rewrite !DecimalNat.Unsigned.of_to in H.
Qed.

Lemma append_inj_l (p s1 s2 : string) : p ++ s1 = p ++ s2 -> s1 = s2.
Proof.
  induction p as [|c p IH]; simpl; intros H; [exact H|].
  injection H as H. auto.
Qed.

Lemma tag_inj verb n m : tag verb n = tag verb m -> n = m.
Proof.
  unfold tag. intros H. apply append_inj_l in H.
  simpl in H. injection H as H. now apply decimal_inj.
Qed.

Lemma tag_eqb_zero verb n : String.eqb (tag verb n) (tag verb 0) = (n =? 0)%nat.
Proof.
  destruct (Nat.eqb_spec n 0) as [->|Hn].
  - apply String.eqb_refl.
  - apply String.eqb_neq. intros H. apply Hn. now apply tag_inj in H.
Qed.

Lemma decimal_eqb_zero n : String.eqb (decimal n) "0" = (n =? 0)%nat.
Proof.
  destruct (Nat.eqb_spec n 0) as [->|Hn]; [reflexivity|].
  apply String.eqb_neq. intros H. apply Hn. now apply (decimal_inj n 0).
Qed.

Lemma update_tag_zero n : String.eqb (tag "UPDATE" n) "UPDATE 0" = (n =? 0)%nat.
Proof. exact (tag_eqb_zero "UPDATE" n). Qed.

Lemma delete_tag_zero n : String.eqb (tag "DELETE" n) "DELETE 0" = (n =? 0)%nat.
Proof. exact (tag_eqb_zero "DELETE" n). Qed.

Example scenario_1_2 :
  let dune := MovieBase.Build "Dune" "Sci-fi epic" 95 in
  let (r1, db1) := run (create_movie dune) empty_db in
  r1 = inr (Movie.Build "Dune" "Sci-fi epic" 95 1) /\
  fst (run (read_movie 1) db1) = r1 /\
  fst (run (read_movie 999) db1) = inl (HTTPException 404 "Movie not found") /\
  fst (run read_genres db1) = inr [] /\
  fst (run (delete_movie 1) db1) = inr [("message", VStr "Movie deleted")] /\
  fst (run (read_movie 1) (snd (run (delete_movie 1) db1)))
    = inl (HTTPException 404 "Movie not found").
Proof. vm_compute. repeat split. Qed.

(** ** What each route computes *)

#[local] Arguments matching : simpl never.

Lemma set_get_table t db : set_table t (get_table t db) db = db.
Proof. destruct t, db; reflexivity. Qed.

Lemma get_set_table t tb db : get_table t (set_table t tb db) = tb.
Proof. destruct t; reflexivity. Qed.

Lemma get_set_table_other t t' tb db :
  t <> t' -> get_table t' (set_table t tb db) = get_table t' db.
Proof. destruct t, t'; intros H; try reflexivity; contradiction. Qed.

Lemma set_set_table t tb tb' db :
  set_table t tb' (set_table t tb db) = set_table t tb' db.
Proof. destruct t; reflexivity. Qed.

Lemma run_list t db :
  run (app (route t List_)) db = (inr (json_list t (rows (get_table t db))), db).
Proof.
  destruct t; simpl.
  - rewrite (comprehension_records _ _ _ Movie_of_record_of). reflexivity.
  - rewrite (comprehension_records _ _ _ Genre_of_record_of). reflexivity.
Qed.

Lemma run_get t i db :
  run (app (route t (Get i))) db =
  (match matching i (get_table t db) with
   | [] => inl (not_found t)
   | r :: _ => inr (json_of_tuple t r)
   end, db).
Proof.
  destruct t; simpl;
    match goal with |- context [matching i ?tb] => destruct (matching i tb) end;
    reflexivity.
Qed.

Lemma run_create t n d p db :
  run (app (route t (Create n d p))) db =
  let tb := get_table t db in
  if existsb (has_id (id_seq tb)) (rows tb)
  then (inl UniqueViolationError, set_table t (table_skip tb) db)
  else (inr (json_object t (id_seq tb) n d p), set_table t (table_insert n d p tb) db).
Proof.
  destruct t; simpl;
    match goal with |- context [existsb ?f ?l] => destruct (existsb f l) end;
    reflexivity.
Qed.

Lemma run_update t i n d p db :
  run (app (route t (Update i n d p))) db =
  (match matching i (get_table t db) with
   | [] => inl (not_found t)
   | _ :: _ => inr (json_object t i n d p)
   end, set_table t (table_update i n d p (get_table t db)) db).
Proof.
  destruct t; simpl; rewrite decimal_eqb_zero;
    match goal with |- context [matching i ?tb] => destruct (matching i tb) end;
    reflexivity.
Qed.

Lemma run_delete t i db :
  run (app (route t (Delete i))) db =
  (match matching i (get_table t db) with
   | [] => inl (not_found t)
   | _ :: _ => inr (deleted t)
   end, set_table t (table_delete i (get_table t db)) db).
Proof.
  destruct t; simpl; rewrite decimal_eqb_zero;
    match goal with |- context [matching i ?tb] => destruct (matching i tb) end;
    reflexivity.
Qed.

(** Every resource route sends exactly one statement, the one of its
    operation. *)
Lemma issued_route t op db : issued (app (route t op)) db = [statement t op].
Proof.
  destruct t, op; simpl;
    try match goal with
    | |- context [existsb ?f ?l] => destruct (existsb f l)
    | |- context [String.eqb (decimal ?n) _] =>
        rewrite decimal_eqb_zero; destruct (n =? 0)%nat
    | |- context [hd_error (map record_of (matching ?i ?tb))] =>
        destruct (matching i tb)
    | |- context [comprehension Movie_of_record] =>
        rewrite (comprehension_records _ _ _ Movie_of_record_of)
    | |- context [comprehension Genre_of_record] =>
        rewrite (comprehension_records _ _ _ Genre_of_record_of)
    end; reflexivity.
Qed.

(** ** Tables *)

Lemma has_id_true i r : has_id i r = true <-> col_id r = i.
Proof. unfold has_id. apply Z.eqb_eq. Qed.

Lemma has_id_false i r : has_id i r = false <-> col_id r <> i.
Proof. unfold has_id. apply Z.eqb_neq. Qed.

Lemma matching_nil i tb : matching i tb = [] <-> ~ In i (ids tb).
Proof.
  unfold matching, ids. destruct tb as [rs s]. simpl.
  induction rs as [|r rs IH]; simpl.
  - split; auto.
  - destruct (has_id i r) eqn:E.
    + apply has_id_true in E. split; [discriminate|]. intros H. exfalso. auto.
    + apply has_id_false in E. rewrite IH. split; intros H.
      * intros [H'|H']; auto.
      * intros H'. apply H. right. exact H'.
Qed.

Lemma matching_cons i tb : In i (ids tb) -> exists r rs, matching i tb = r :: rs.
Proof.
  intros H. destruct (matching i tb) as [|r rs] eqn:E.
  - apply matching_nil in E. contradiction.
  - eauto.
Qed.

Lemma matching_In i tb r : In r (matching i tb) <-> In r (rows tb) /\ col_id r = i.
Proof. unfold matching. rewrite filter_In, has_id_true. reflexivity. Qed.

Lemma existsb_has_id i tb : existsb (has_id i) (rows tb) = true <-> In i (ids tb).
Proof.
  unfold ids. rewrite existsb_exists, in_map_iff. split.
  - intros [r [Hr E]]. apply has_id_true in E. eauto.
  - intros [r [E Hr]]. exists r. split; [exact Hr|]. now apply has_id_true.
Qed.

Lemma table_delete_absent i tb : ~ In i (ids tb) -> table_delete i tb = tb.
Proof.
  destruct tb as [rs s]. unfold table_delete, ids. simpl. intros H. f_equal.
  induction rs as [|r rs IH]; simpl in *; [reflexivity|].
  destruct (has_id i r) eqn:E; simpl.
  - apply has_id_true in E. exfalso. auto.
  - f_equal. apply IH. auto.
Qed.

Lemma matching_table_delete i tb : matching i (table_delete i tb) = [].
Proof.
  unfold matching, table_delete. simpl.
  induction (rows tb) as [|r rs IH]; simpl; [reflexivity|].
  destruct (has_id i r) eqn:E; simpl; [exact IH|]. now rewrite E.
Qed.

Lemma matching_table_delete_other i j tb :
  j <> i -> matching j (table_delete i tb) = matching j tb.
Proof.
  intros Hji. unfold matching, table_delete. simpl.
  induction (rows tb) as [|r rs IH]; simpl; [reflexivity|].
  destruct (has_id i r) eqn:E; simpl.
  - apply has_id_true in E. destruct (has_id j r) eqn:E'; [|exact IH].
    apply has_id_true in E'. congruence.
  - destruct (has_id j r); now rewrite IH.
Qed.

Lemma has_id_updated i j n d p r : has_id j (updated i n d p r) = has_id j r.
Proof. unfold updated. destruct (has_id i r); reflexivity. Qed.

Lemma col_id_updated i n d p r : col_id (updated i n d p r) = col_id r.
Proof. unfold updated. destruct (has_id i r); reflexivity. Qed.

Lemma updated_idem i n d p r :
  updated i n d p (updated i n d p r) = updated i n d p r.
Proof.
  unfold updated. destruct (has_id i r) eqn:E; [|now rewrite E].
  unfold has_id in *. simpl. now rewrite E.
Qed.

Lemma updated_other i n d p r : col_id r <> i -> updated i n d p r = r.
Proof. intros H. unfold updated. apply has_id_false in H. now rewrite H. Qed.

Lemma filter_all {X : Type} (f : X -> bool) (l : list X) :
  (forall x, In x l -> f x = true) -> filter f l = l.
Proof.
  induction l as [|x l IH]; simpl; intros H; [reflexivity|].
  rewrite (H x (or_introl eq_refl)). f_equal. apply IH. auto.
Qed.

Lemma filter_none {X : Type} (f : X -> bool) (l : list X) :
  (forall x, In x l -> f x = false) -> filter f l = [].
Proof.
  induction l as [|x l IH]; simpl; intros H; [reflexivity|].
  rewrite (H x (or_introl eq_refl)). apply IH. auto.
Qed.

Lemma filter_split_perm {X : Type} (f : X -> bool) (l : list X) :
  Permutation (filter (fun x => negb (f x)) l ++ filter f l) l.
Proof.
  induction l as [|x l IH]; simpl; [constructor|].
  destruct (f x); simpl.
  - apply Permutation_sym, Permutation_cons_app, Permutation_sym, IH.
  - now constructor.
Qed.

(** The rows an update writes anew all carry the id it was keyed on. *)
Lemma has_id_rewritten i j n d p tb r :
  In r (map (updated i n d p) (matching i tb)) -> has_id j r = (i =? j).
Proof.
  rewrite in_map_iff. intros [x [<- Hx]]. rewrite has_id_updated.
  apply matching_In in Hx. destruct Hx as [_ Hx]. unfold has_id. now rewrite Hx.
Qed.

Lemma rows_table_update i n d p tb :
  rows (table_update i n d p tb)
  = (rows (table_delete i tb) ++ map (updated i n d p) (matching i tb))%list.
Proof. reflexivity. Qed.

Lemma ids_table_update i n d p tb :
  Permutation (ids (table_update i n d p tb)) (ids tb).
Proof.
  unfold ids, table_update, matching. simpl. rewrite map_app, map_map.
  rewrite (map_ext (fun x => col_id (updated i n d p x)) col_id)
    by (intros r; apply col_id_updated).
  rewrite <- map_app. apply Permutation_map, filter_split_perm.
Qed.

Lemma table_update_absent i n d p tb :
  ~ In i (ids tb) -> table_update i n d p tb = tb.
Proof.
  intros H. pose proof (table_delete_absent i tb H) as Hd.
  apply matching_nil in H.
  destruct tb as [rs s]. unfold table_update. rewrite H. simpl.
  rewrite app_nil_r. f_equal. exact (f_equal rows Hd).
Qed.

Lemma matching_table_update i j n d p tb :
  matching j (table_update i n d p tb) = map (updated i n d p) (matching j tb).
Proof.
  unfold matching at 1. rewrite rows_table_update, filter_app.
  fold (matching j (table_delete i tb)).
  destruct (Z.eq_dec j i) as [->|Hji].
  - rewrite matching_table_delete. simpl. apply filter_all.
    intros r Hr. rewrite (has_id_rewritten i i n d p tb r Hr). apply Z.eqb_refl.
  - rewrite matching_table_delete_other by exact Hji.
    rewrite filter_none, app_nil_r.
    + rewrite <- (map_id (matching j tb)) at 1. apply map_ext_in.
      intros r Hr. apply matching_In in Hr. destruct Hr as [_ Hr].
      symmetry. apply updated_other. congruence.
    + intros r Hr. rewrite (has_id_rewritten i j n d p tb r Hr).
      apply Z.eqb_neq. congruence.
Qed.

Lemma matching_table_update_other i j n d p tb :
  j <> i -> matching j (table_update i n d p tb) = matching j tb.
Proof.
  intros Hji. rewrite matching_table_update.
  rewrite <- (map_id (matching j tb)) at 2. apply map_ext_in.
  intros r Hr. apply matching_In in Hr. destruct Hr as [_ Hr].
  apply updated_other. congruence.
Qed.

Lemma table_delete_idem i tb : table_delete i (table_delete i tb) = table_delete i tb.
Proof.
  apply table_delete_absent, matching_nil, matching_table_delete.
Qed.

Lemma table_delete_update i n d p tb :
  table_delete i (table_update i n d p tb) = table_delete i tb.
Proof.
  unfold table_delete at 1. rewrite rows_table_update, filter_app.
  rewrite (filter_none _ (map _ _)), app_nil_r.
  - change (filter (fun r => negb (has_id i r)) (rows (table_delete i tb)))
      with (rows (table_delete i (table_delete i tb))).
    rewrite table_delete_idem. reflexivity.
  - intros r Hr. rewrite (has_id_rewritten i i n d p tb r Hr), Z.eqb_refl. reflexivity.
Qed.

Lemma table_update_idem i n d p tb :
  table_update i n d p (table_update i n d p tb) = table_update i n d p tb.
Proof.
  unfold table_update at 1.
  change (filter (fun r => negb (has_id i r)) (rows (table_update i n d p tb)))
    with (rows (table_delete i (table_update i n d p tb))).
  rewrite table_delete_update, matching_table_update, map_map.
  rewrite (map_ext (fun x => updated i n d p (updated i n d p x)) (updated i n d p))
    by (intros r; apply updated_idem).
  reflexivity.
Qed.

Lemma ids_table_delete i tb :
  ids (table_delete i tb) = filter (fun j => negb (j =? i)) (ids tb).
Proof.
  unfold ids, table_delete. simpl.
  induction (rows tb) as [|r rs IH]; simpl; [reflexivity|].
  unfold has_id at 1. destruct (col_id r =? i); simpl; now rewrite IH.
Qed.

Lemma ids_table_insert n d p tb : ids (table_insert n d p tb) = (ids tb ++ [id_seq tb])%list.
Proof. unfold ids, table_insert. simpl. now rewrite map_app. Qed.

Lemma matching_table_insert i n d p tb :
  matching i (table_insert n d p tb) =
  (matching i tb ++ if id_seq tb =? i then [Build_Tuple (id_seq tb) n d p] else [])%list.
Proof.
  unfold matching, table_insert. simpl. rewrite filter_app. simpl.
  unfold has_id at 2. simpl. reflexivity.
Qed.

(** ** The invariant is kept *)

Lemma wf_empty_db : wf_db empty_db.
Proof. repeat split; simpl; constructor. Qed.

Lemma wf_table_fresh tb : wf_table tb -> ~ In (id_seq tb) (ids tb).
Proof.
  intros [_ Hlt] Hin. rewrite Forall_forall in Hlt. apply Hlt in Hin. lia.
Qed.

Lemma wf_table_update i n d p tb : wf_table tb -> wf_table (table_update i n d p tb).
Proof.
  intros [Hnd Hlt]. pose proof (Permutation_sym (ids_table_update i n d p tb)) as Hp.
  split.
  - exact (Permutation_NoDup Hp Hnd).
  - exact (Permutation_Forall Hp Hlt).
Qed.

Lemma wf_table_delete i tb : wf_table tb -> wf_table (table_delete i tb).
Proof.
  unfold wf_table. rewrite ids_table_delete. intros [Hnd Hlt]. split.
  - now apply NoDup_filter.
  - simpl. rewrite Forall_forall in *. intros j Hj. apply filter_In in Hj.
    apply Hlt. tauto.
Qed.

Lemma wf_table_insert n d p tb : wf_table tb -> wf_table (table_insert n d p tb).
Proof.
  intros Hwf. pose proof (wf_table_fresh tb Hwf) as Hfresh.
  destruct Hwf as [Hnd Hlt]. unfold wf_table. rewrite ids_table_insert. split.
  - apply NoDup_app; [exact Hnd | repeat constructor; auto |].
    intros j Hj [<-|[]]. contradiction.
  - simpl. rewrite Forall_app. split.
    + rewrite Forall_forall in *. intros j Hj. apply Hlt in Hj. lia.
    + repeat constructor. lia.
Qed.

Lemma wf_table_skip tb : wf_table tb -> wf_table (table_skip tb).
Proof.
  intros [Hnd Hlt]. split; [exact Hnd|]. simpl.
  unfold ids in *. simpl. rewrite Forall_forall in *. intros j Hj.
  apply Hlt in Hj. lia.
Qed.

Lemma wf_set_table t tb db : wf_db db -> wf_table tb -> wf_db (set_table t tb db).
Proof. intros [Hm Hg] Htb. destruct t; split; simpl; assumption. Qed.

Lemma wf_get_table t db : wf_db db -> wf_table (get_table t db).
Proof. intros [Hm Hg]. destruct t; assumption. Qed.

Lemma pg_exec_wf q db : wf_db db -> wf_db (snd (pg_exec q db)).
Proof.
  intros Hwf. destruct q as [t|t i|t n d p|t n d p i|t i]; simpl; try exact Hwf.
  - destruct (existsb _ _); simpl; apply wf_set_table; auto.
    + apply wf_table_skip. now apply wf_get_table.
    + apply wf_table_insert. now apply wf_get_table.
  - apply wf_set_table; auto. apply wf_table_update. now apply wf_get_table.
  - apply wf_set_table; auto. apply wf_table_delete. now apply wf_get_table.
Qed.

(** Whatever the connection keeps invariant, every handler keeps. *)
Lemma run_invariant (P : Database -> Prop) :
  (forall q db, P db -> P (snd (pg_exec q db))) ->
  forall (A : Type) (h : Handler A) db, P db -> P (snd (run h db)).
Proof.
  intros Hexec A h. induction h as [a|e|q k IH|q k IH|q k IH|q k IH];
    intros db Hdb; simpl; try exact Hdb;
    specialize (Hexec q db Hdb);
    destruct (pg_exec q db) as [[e|[out st]] db']; simpl in *; auto.
Qed.

Lemma run_wf {A : Type} (h : Handler A) db : wf_db db -> wf_db (snd (run h db)).
Proof. apply run_invariant. exact pg_exec_wf. Qed.

Lemma reachable_wf db : reachable db -> wf_db db.
Proof.
  induction 1 as [|req db _ IH]; [exact wf_empty_db | now apply run_wf].
Qed.

Lemma wf_sample_db : wf_db sample_db.
Proof.
  unfold wf_db, wf_table, ids; simpl.
  repeat split; repeat constructor; simpl; try lia; intuition discriminate.
Qed.

(** The id sequence of a table never moves backwards. *)
Lemma id_seq_monotone {A : Type} (h : Handler A) t db :
  id_seq (get_table t db) <= id_seq (get_table t (snd (run h db))).
Proof.
  apply (run_invariant (fun db' => id_seq (get_table t db) <= id_seq (get_table t db')));
    [|lia].
  intros q db0 H. destruct q as [t0|t0 i|t0 n d p|t0 n d p i|t0 i]; simpl; try exact H;
    try destruct (existsb _ _); simpl;
    destruct t, t0; simpl in *; lia.
Qed.

(** ** The CRUD contract *)

(** C1: for an id that is not in the resource's table, get-by-id, update
    and delete each raise the 404 exception with the detail
    "Movie not found" (for genres "Genre not found"), and leave the
    database as it was. *)
Theorem C1_absent_id_not_found (t : TableName) (i : Z) (db : Database) :
  ~ In i (ids (get_table t db)) ->
  let e := HTTPException 404 (match t with
                              | T_movies => "Movie not found"
                              | T_genres => "Genre not found"
                              end) in
  run (app (route t (Get i))) db = (inl e, db) /\
  (forall n d p, run (app (route t (Update i n d p))) db = (inl e, db)) /\
  run (app (route t (Delete i))) db = (inl e, db) /\
  status_code (A := Payload) (inl e) = 404.
Proof.
  intros Habs e.
  assert (He : e = not_found t) by (destruct t; reflexivity).
  pose proof (proj2 (matching_nil i (get_table t db)) Habs) as Hm.
  repeat split.
  - rewrite run_get, Hm, He. reflexivity.
  - intros n d p. rewrite run_update, Hm, He, table_update_absent by exact Habs.
    now rewrite set_get_table.
  - rewrite run_delete, Hm, He, table_delete_absent by exact Habs.
    now rewrite set_get_table.
Qed.

Lemma C1_absent_id_not_found_witness :
  ~ In 999 (ids (get_table T_movies sample_db)) /\
  run (app (route T_movies (Delete 999))) sample_db
  = (inl (HTTPException 404 "Movie not found"), sample_db).
Proof.
  assert (H : ~ In 999 (ids (get_table T_movies sample_db)))
    by (simpl; intros [H|[H|[]]]; discriminate).
  split; [exact H|].
  exact (proj1 (proj2 (proj2 (C1_absent_id_not_found T_movies 999 sample_db H)))).
Defined.

(** C2: on a table whose primary key and id sequence are consistent,
    create returns the object made of the submitted name, description and
    popularity and of the id the insert generated; that id is larger than
    every id in the table, hence not in it, and it is the id of the row
    the insert appended. *)
Theorem C2_create_returns_fresh_object
    (t : TableName) (n d : string) (p : Z) (db : Database) :
  wf_table (get_table t db) ->
  let i := id_seq (get_table t db) in
  let db' := snd (run (app (route t (Create n d p))) db) in
  fst (run (app (route t (Create n d p))) db) = inr (json_object t i n d p) /\
  ~ In i (ids (get_table t db)) /\
  Forall (fun j => j < i) (ids (get_table t db)) /\
  rows (get_table t db') = (rows (get_table t db) ++ [Build_Tuple i n d p])%list /\
  id_seq (get_table t db') = i + 1.
Proof.
  intros Hwf i db'. pose proof (wf_table_fresh _ Hwf) as Hfresh.
  assert (Hex : existsb (has_id i) (rows (get_table t db)) = false).
  { destruct (existsb _ _) eqn:E; [|reflexivity].
    apply existsb_has_id in E. contradiction. }
  subst db'. rewrite run_create. cbv zeta. fold i. rewrite Hex. simpl.
  rewrite get_set_table. repeat split; try assumption. apply Hwf.
Qed.

Lemma C2_create_returns_fresh_object_witness :
  wf_table (get_table T_movies sample_db) /\
  fst (run (app (route T_movies (Create "Heat" "Crime" 88))) sample_db)
  = inr (JsonMovie (Movie.Build "Heat" "Crime" 88 3)).
Proof.
  assert (H : wf_table (get_table T_movies sample_db)) by apply wf_sample_db.
  split; [exact H|].
  exact (proj1 (C2_create_returns_fresh_object T_movies "Heat" "Crime" 88 sample_db H)).
Defined.

(** C3: after a create, a get-by-id with the id carried by the create
    response returns that same object and changes nothing. *)
Theorem C3_get_after_create (t : TableName) (n d : string) (p : Z) (db : Database) :
  wf_table (get_table t db) ->
  exists obj db',
    run (app (route t (Create n d p))) db = (inr obj, db') /\
    payload_ids obj = [id_seq (get_table t db)] /\
    run (app (route t (Get (id_seq (get_table t db))))) db' = (inr obj, db').
Proof.
  intros Hwf. pose proof (wf_table_fresh _ Hwf) as Hfresh.
  set (i := id_seq (get_table t db)) in *.
  assert (Hex : existsb (has_id i) (rows (get_table t db)) = false).
  { destruct (existsb _ _) eqn:E; [|reflexivity].
    apply existsb_has_id in E. contradiction. }
  exists (json_object t i n d p),
         (set_table t (table_insert n d p (get_table t db)) db).
  split; [|split].
  - rewrite run_create. cbv zeta. fold i. now rewrite Hex.
  - destruct t; reflexivity.
  - rewrite run_get, get_set_table, matching_table_insert. fold i.
    rewrite (proj2 (matching_nil i _) Hfresh), Z.eqb_refl. reflexivity.
Qed.

Lemma C3_get_after_create_witness :
  wf_table (get_table T_genres sample_db) /\
  exists db',
    run (app (route T_genres (Create "Noir" "Dark" 7))) sample_db
    = (inr (JsonGenre (Genre.Build "Noir" "Dark" 7 2)), db') /\
    run (app (route T_genres (Get 2))) db'
    = (inr (JsonGenre (Genre.Build "Noir" "Dark" 7 2)), db').
Proof.
  assert (H : wf_table (get_table T_genres sample_db)) by apply wf_sample_db.
  split; [exact H|].
  destruct (C3_get_after_create T_genres "Noir" "Dark" 7 sample_db H)
    as [obj [db' [Hc [_ Hg]]]].
  exists db'. vm_compute in Hc. injection Hc as Hobj Hdb.
  subst obj. split; [|exact Hg].
  rewrite <- Hdb. reflexivity.
Defined.

(** C4: an update of an id that is in the table returns the object made of
    the path id and the submitted name, description and popularity; the
    handler sends the UPDATE statement and nothing else, so the response is
    built from the request and not read back. *)
Theorem C4_update_returns_submitted
    (t : TableName) (i : Z) (n d : string) (p : Z) (db : Database) :
  In i (ids (get_table t db)) ->
  fst (run (app (route t (Update i n d p))) db) = inr (json_object t i n d p) /\
  issued (app (route t (Update i n d p))) db = [UpdateWhereId t n d p i].
Proof.
  intros Hin. destruct (matching_cons _ _ Hin) as [r [rs Hm]]. split.
  - rewrite run_update, Hm. reflexivity.
  - apply issued_route.
Qed.

Lemma C4_update_returns_submitted_witness :
  In 1 (ids (get_table T_movies sample_db)) /\
  fst (run (app (route T_movies (Update 1 "Dune" "Updated" 98))) sample_db)
  = inr (JsonMovie (Movie.Build "Dune" "Updated" 98 1)).
Proof.
  assert (H : In 1 (ids (get_table T_movies sample_db))) by (simpl; auto).
  split; [exact H|].
  exact (proj1 (C4_update_returns_submitted T_movies 1 "Dune" "Updated" 98 sample_db H)).
Defined.

(** C5: for an id in the table, sending the same update a second time
    leaves the database exactly as the first left it and is answered with
    the same success response; the list route shows the same rows after
    either. *)
Theorem C5_update_idempotent
    (t : TableName) (i : Z) (n d : string) (p : Z) (db : Database) :
  In i (ids (get_table t db)) ->
  let once := run (app (route t (Update i n d p))) db in
  let twice := run (app (route t (Update i n d p))) (snd once) in
  snd twice = snd once /\
  fst twice = fst once /\
  fst once = inr (json_object t i n d p) /\
  fst (run (app (route t List_)) (snd twice)) = fst (run (app (route t List_)) (snd once)).
Proof.
  intros Hin once twice.
  destruct (matching_cons _ _ Hin) as [r [rs Hm]].
  assert (Hdb : snd twice = snd once).
  { subst twice once. rewrite !run_update. simpl.
    now rewrite get_set_table, table_update_idem, set_set_table. }
  assert (Hfst : fst once = inr (json_object t i n d p)).
  { subst once. rewrite run_update, Hm. reflexivity. }
  repeat split; try assumption.
  - rewrite Hfst. subst twice once. rewrite !run_update. simpl.
    rewrite get_set_table, matching_table_update, Hm. reflexivity.
  - now rewrite Hdb.
Qed.

Lemma C5_update_idempotent_witness :
  In 2 (ids (get_table T_movies sample_db)) /\
  snd (run (app (route T_movies (Update 2 "Aliens" "Sequel" 91)))
         (snd (run (app (route T_movies (Update 2 "Aliens" "Sequel" 91))) sample_db)))
  = snd (run (app (route T_movies (Update 2 "Aliens" "Sequel" 91))) sample_db).
Proof.
  assert (H : In 2 (ids (get_table T_movies sample_db))) by (simpl; auto).
  split; [exact H|].
  exact (proj1 (C5_update_idempotent T_movies 2 "Aliens" "Sequel" 91 sample_db H)).
Defined.

(** C6: after a delete that succeeded, get-by-id on the same id raises the
    404 exception, no row of the table has that id, and no object in the
    answer of the list route has it. *)
Theorem C6_get_after_delete
    (t : TableName) (i : Z) (db db' : Database) (out : Payload) :
  run (app (route t (Delete i))) db = (inr out, db') ->
  run (app (route t (Get i))) db' = (inl (not_found t), db') /\
  status_code (fst (run (app (route t (Get i))) db')) = 404 /\
  ~ In i (ids (get_table t db')) /\
  exists objs,
    fst (run (app (route t List_)) db') = inr objs /\ ~ In i (payload_ids objs).
Proof.
  rewrite run_delete. intros H. injection H as _ Hdb.
  assert (Hm : matching i (get_table t db') = []).
  { rewrite <- Hdb, get_set_table. apply matching_table_delete. }
  assert (Hget : run (app (route t (Get i))) db' = (inl (not_found t), db')).
  { rewrite run_get, Hm. reflexivity. }
  assert (Hnin : ~ In i (ids (get_table t db'))) by now apply matching_nil.
  repeat split; try assumption.
  - rewrite Hget. reflexivity.
  - exists (json_list t (rows (get_table t db'))). rewrite run_list.
    split; [reflexivity|].
    intros Hin. apply Hnin. unfold ids.
    destruct t; simpl in Hin; rewrite map_map in Hin; exact Hin.
Qed.

Lemma C6_get_after_delete_witness :
  exists db',
    run (app (route T_movies (Delete 1))) sample_db
    = (inr (JsonDict [("message", VStr "Movie deleted")]), db') /\
    run (app (route T_movies (Get 1))) db'
    = (inl (HTTPException 404 "Movie not found"), db').
Proof.
  eexists. split; [vm_compute; reflexivity|].
  refine (proj1 (C6_get_after_delete T_movies 1 sample_db _ _ _)).
  vm_compute. reflexivity.
Defined.

(** C7: the list route returns one object per row of the table, in row
    order, with status 200 and without touching the database; on an empty
    table it returns the empty list. *)
Theorem C7_list_length (t : TableName) (db : Database) :
  exists objs,
    run (app (route t List_)) db = (inr objs, db) /\
    objs = json_list t (rows (get_table t db)) /\
    payload_ids objs = ids (get_table t db) /\
    payload_length objs = List.length (rows (get_table t db)) /\
    status_code (fst (run (app (route t List_)) db)) = 200 /\
    forall s, run (app (route t List_)) (set_table t {| rows := []; id_seq := s |} db)
              = (inr (json_list t []), set_table t {| rows := []; id_seq := s |} db).
Proof.
  exists (json_list t (rows (get_table t db))).
  assert (Hids : payload_ids (json_list t (rows (get_table t db))) = ids (get_table t db)).
  { unfold ids. destruct t; simpl; rewrite map_map; reflexivity. }
  repeat split.
  - apply run_list.
  - exact Hids.
  - unfold payload_length. rewrite Hids. unfold ids. apply length_map.
  - rewrite run_list. reflexivity.
  - intros s. rewrite run_list, get_set_table. reflexivity.
Qed.

(** ** Frame: what an operation leaves alone *)

Lemma Tuple_eqb_eq a b : Tuple_eqb a b = true <-> a = b.
Proof.
  unfold Tuple_eqb. rewrite !andb_true_iff, !Z.eqb_eq, !String.eqb_eq.
  destruct a, b; simpl. split.
  - intros [[[-> ->] ->] ->]. reflexivity.
  - intros H. injection H as -> -> -> ->. auto.
Qed.

Lemma existsb_Tuple_eqb r rs : existsb (Tuple_eqb r) rs = true <-> In r rs.
Proof.
  rewrite existsb_exists. split.
  - intros [x [Hx E]]. apply Tuple_eqb_eq in E. now subst.
  - intros H. exists r. split; [exact H|]. now apply Tuple_eqb_eq.
Qed.

Lemma vanished_In tb tb' r :
  In r (vanished tb tb') <-> In r (rows tb) /\ ~ In r (rows tb').
Proof.
  unfold vanished. rewrite filter_In, negb_true_iff.
  rewrite <- (existsb_Tuple_eqb r (rows tb')).
  destruct (existsb (Tuple_eqb r) (rows tb')); intuition congruence.
Qed.

Lemma vanished_subset tb tb' :
  (forall r, In r (rows tb) -> In r (rows tb')) -> vanished tb tb' = [].
Proof.
  intros H. destruct (vanished tb tb') as [|r rs] eqn:E; [reflexivity|].
  assert (Hr : In r (vanished tb tb')) by (rewrite E; left; reflexivity).
  apply vanished_In in Hr. destruct Hr as [Hr Hn]. exfalso. auto.
Qed.

Lemma filter_length_le_implies {X : Type} (P Q : X -> bool) (l : list X) :
  (forall x, In x l -> P x = true -> Q x = true) ->
  (List.length (filter P l) <= List.length (filter Q l))%nat.
Proof.
  induction l as [|x l IH]; intros H; simpl; [lia|].
  assert (IH' : (List.length (filter P l) <= List.length (filter Q l))%nat)
    by (apply IH; intros y Hy; apply H; right; exact Hy).
  destruct (P x) eqn:EP.
  - rewrite (H x (or_introl eq_refl) EP). simpl. lia.
  - destruct (Q x); simpl; lia.
Qed.

(** The primary key selects at most one row. *)
Lemma matching_at_most_one i tb :
  NoDup (ids tb) -> (List.length (matching i tb) <= 1)%nat.
Proof.
  unfold matching, ids. induction (rows tb) as [|r rs IH]; simpl; intros Hnd; [lia|].
  inversion Hnd as [|x l Hnin Hnd']; subst.
  destruct (has_id i r) eqn:E.
  - apply has_id_true in E. subst i.
    assert (Hnil : filter (has_id (col_id r)) rs = []).
    { apply (proj2 (matching_nil (col_id r) {| rows := rs; id_seq := 0 |})).
      exact Hnin. }
    simpl. rewrite Hnil. simpl. lia.
  - auto.
Qed.

(** If every row with another id survives, at most one row vanishes. *)
Lemma vanished_at_most_one i tb tb' :
  NoDup (ids tb) ->
  (forall r, In r (rows tb) -> col_id r <> i -> In r (rows tb')) ->
  (List.length (vanished tb tb') <= 1)%nat.
Proof.
  intros Hnd Hkeep.
  apply Nat.le_trans with (List.length (matching i tb));
    [|now apply matching_at_most_one].
  unfold vanished, matching. apply filter_length_le_implies.
  intros r Hr Hgone. apply negb_true_iff in Hgone.
  destruct (has_id i r) eqn:E; [reflexivity|]. apply has_id_false in E.
  apply (Hkeep r Hr) in E. apply existsb_Tuple_eqb in E. congruence.
Qed.

Lemma rows_table_update_other i n d p tb r :
  col_id r <> i -> (In r (rows (table_update i n d p tb)) <-> In r (rows tb)).
Proof.
  intros Hne. rewrite rows_table_update, in_app_iff.
  unfold table_delete at 1. simpl. rewrite filter_In, negb_true_iff, has_id_false.
  split.
  - intros [[Hin _]|Hin]; [exact Hin|].
    apply (has_id_rewritten i i n d p tb r) in Hin. rewrite Z.eqb_refl in Hin.
    apply has_id_true in Hin. contradiction.
  - intros Hin. left. split; assumption.
Qed.

Lemma rows_table_delete i tb r :
  In r (rows (table_delete i tb)) <-> In r (rows tb) /\ col_id r <> i.
Proof.
  unfold table_delete. simpl. rewrite filter_In, negb_true_iff, has_id_false.
  reflexivity.
Qed.

Lemma rows_table_insert n d p tb r :
  In r (rows (table_insert n d p tb)) <->
  In r (rows tb) \/ r = Build_Tuple (id_seq tb) n d p.
Proof.
  unfold table_insert. simpl. rewrite in_app_iff. simpl. intuition.
Qed.

Lemma vanished_same tb : vanished tb tb = [].
Proof. apply vanished_subset. auto. Qed.

Lemma table_update_at_most_one i n d p tb :
  wf_table tb ->
  (List.length (vanished tb (table_update i n d p tb)) <= 1)%nat /\
  (List.length (appeared tb (table_update i n d p tb)) <= 1)%nat.
Proof.
  intros Hwf. pose proof (wf_table_update i n d p tb Hwf) as [Hnd' _].
  destruct Hwf as [Hnd _]. split; [|unfold appeared];
    apply (vanished_at_most_one i); try assumption;
    intros r Hr Hne; now apply (rows_table_update_other i n d p tb r Hne).
Qed.

Lemma table_delete_at_most_one i tb :
  wf_table tb ->
  (List.length (vanished tb (table_delete i tb)) <= 1)%nat /\
  (List.length (appeared tb (table_delete i tb)) <= 1)%nat.
Proof.
  intros [Hnd _]. split.
  - apply (vanished_at_most_one i); [exact Hnd|].
    intros r Hr Hne. apply rows_table_delete. auto.
  - unfold appeared. rewrite vanished_subset; [simpl; lia|].
    intros r Hr. now apply rows_table_delete in Hr.
Qed.

Lemma table_insert_at_most_one n d p tb :
  wf_table tb ->
  (List.length (vanished tb (table_insert n d p tb)) <= 1)%nat /\
  (List.length (appeared tb (table_insert n d p tb)) <= 1)%nat.
Proof.
  intros Hwf. split.
  - rewrite vanished_subset; [simpl; lia|].
    intros r Hr. apply rows_table_insert. auto.
  - unfold appeared. apply (vanished_at_most_one (id_seq tb)).
    + apply (wf_table_insert n d p tb Hwf).
    + intros r Hr Hne. apply rows_table_insert in Hr.
      destruct Hr as [Hr| ->]; [exact Hr|]. simpl in Hne. congruence.
Qed.

Lemma table_skip_at_most_one tb :
  (List.length (vanished tb (table_skip tb)) <= 1)%nat /\
  (List.length (appeared tb (table_skip tb)) <= 1)%nat.
Proof.
  split; [|unfold appeared]; rewrite vanished_subset; simpl; auto.
Qed.

Lemma run_state t op db :
  snd (run (app (route t op)) db) = set_table t (effect op (get_table t db)) db.
Proof.
  destruct op as [|i|n d p|i n d p|i].
  - rewrite run_list. simpl. now rewrite set_get_table.
  - rewrite run_get. simpl. now rewrite set_get_table.
  - rewrite run_create. simpl. destruct (existsb _ _); reflexivity.
  - rewrite run_update. reflexivity.
  - rewrite run_delete. reflexivity.
Qed.

Lemma request_cases req : req = GET_root \/ exists t op, req = route t op.
Proof.
  destruct req as [| |i|[n d p]|i [n d p]|i| |i|[n d p]|i [n d p]|i];
    [left; reflexivity|..]; right.
  - exists T_movies, List_. reflexivity.
  - exists T_movies, (Get i). reflexivity.
  - exists T_movies, (Create n d p). reflexivity.
  - exists T_movies, (Update i n d p). reflexivity.
  - exists T_movies, (Delete i). reflexivity.
  - exists T_genres, List_. reflexivity.
  - exists T_genres, (Get i). reflexivity.
  - exists T_genres, (Create n d p). reflexivity.
  - exists T_genres, (Update i n d p). reflexivity.
  - exists T_genres, (Delete i). reflexivity.
Qed.

Lemma other_neq t : t <> other t.
Proof. destruct t; discriminate. Qed.

Lemma effect_at_most_one op tb :
  wf_table tb ->
  (List.length (vanished tb (effect op tb)) <= 1)%nat /\
  (List.length (appeared tb (effect op tb)) <= 1)%nat.
Proof.
  intros Hwf. destruct op as [|i|n d p|i n d p|i]; simpl.
  - unfold appeared. rewrite vanished_same. simpl. lia.
  - unfold appeared. rewrite vanished_same. simpl. lia.
  - destruct (existsb _ _).
    + apply table_skip_at_most_one.
    + now apply table_insert_at_most_one.
  - now apply table_update_at_most_one.
  - now apply table_delete_at_most_one.
Qed.

Lemma filter_others_update i n d p tb :
  filter (fun r => negb (has_id i r)) (rows (table_update i n d p tb))
  = filter (fun r => negb (has_id i r)) (rows tb).
Proof. exact (f_equal rows (table_delete_update i n d p tb)). Qed.

Lemma filter_others_delete i rs :
  filter (fun r => negb (has_id i r)) (filter (fun r => negb (has_id i r)) rs)
  = filter (fun r => negb (has_id i r)) rs.
Proof.
  induction rs as [|r rs IH]; simpl; [reflexivity|].
  destruct (has_id i r) eqn:E; simpl; [exact IH|]. rewrite E. simpl. now rewrite IH.
Qed.

(** C8: a request sends at most one statement; it leaves one of the two
    tables untouched, and on tables whose primary key is consistent at most
    one row of a table is removed or rewritten and at most one row is new.
    After an update or a delete keyed on an id, the rows with any other id
    are the same rows in the same order, and the other table is the same. *)
Theorem C8_at_most_one_row (req : Request) (db : Database) :
  wf_db db ->
  let db' := snd (run (app req) db) in
  (List.length (issued (app req) db) <= 1)%nat /\
  (exists t, get_table (other t) db' = get_table (other t) db) /\
  (forall t,
     (List.length (vanished (get_table t db) (get_table t db')) <= 1)%nat /\
     (List.length (appeared (get_table t db) (get_table t db')) <= 1)%nat) /\
  (forall t i n d p,
     let after := snd (run (app (route t (Update i n d p))) db) in
     filter (fun r => negb (has_id i r)) (rows (get_table t after))
     = filter (fun r => negb (has_id i r)) (rows (get_table t db)) /\
     get_table (other t) after = get_table (other t) db) /\
  (forall t i,
     let after := snd (run (app (route t (Delete i))) db) in
     filter (fun r => negb (has_id i r)) (rows (get_table t after))
     = filter (fun r => negb (has_id i r)) (rows (get_table t db)) /\
     get_table (other t) after = get_table (other t) db).
Proof.
  intros Hwf db'. split; [|split; [|split; [|split]]].
  - destruct (request_cases req) as [->|[t [op ->]]]; [simpl; lia|].
    rewrite issued_route. simpl. lia.
  - subst db'. destruct (request_cases req) as [->|[t [op ->]]].
    + exists T_movies. reflexivity.
    + exists t. rewrite run_state. apply get_set_table_other, other_neq.
  - intros t. subst db'. destruct (request_cases req) as [->|[t0 [op ->]]].
    + simpl. unfold appeared. rewrite vanished_same. simpl. lia.
    + rewrite run_state. destruct t, t0; simpl;
        try (apply effect_at_most_one; apply Hwf);
        unfold appeared; rewrite vanished_same; simpl; lia.
  - intros t i n d p after. subst after. rewrite run_state. split.
    + rewrite get_set_table. simpl. apply filter_others_update.
    + apply get_set_table_other, other_neq.
  - intros t i after. subst after. rewrite run_state. split.
    + rewrite get_set_table. simpl. apply filter_others_delete.
    + apply get_set_table_other, other_neq.
Qed.

Lemma C8_at_most_one_row_witness :
  wf_db sample_db /\
  (List.length (vanished (tbl_movies sample_db)
                  (tbl_movies (snd (run (app (PUT_movie 1 (MovieBase.Build "Dune" "Updated" 98)))
                                      sample_db)))) <= 1)%nat.
Proof.
  split; [exact wf_sample_db|].
  exact (proj1 (proj1 (proj2 (proj2
    (C8_at_most_one_row (PUT_movie 1 (MovieBase.Build "Dune" "Updated" 98))
       sample_db wf_sample_db))) T_movies)).
Defined.

Example substitute_Genre_not_found :
  substitute_Genre "Movie not found" = "Genre not found"
  /\ substitute_Genre "Movie deleted" = "Genre deleted"
  /\ substitute_Genre "a Movie, a MovieMovie" = "a Genre, a GenreGenre".
Proof. repeat split. Qed.

(** ** Ids are never handed out twice *)

Lemma created_by_route t t0 op db :
  wf_db db ->
  created_by t (route t0 op) (fst (run (app (route t0 op)) db)) = []
  \/ (created_by t (route t0 op) (fst (run (app (route t0 op)) db))
        = [id_seq (get_table t db)]
      /\ id_seq (get_table t (snd (run (app (route t0 op)) db)))
         = id_seq (get_table t db) + 1).
Proof.
  intros Hwf.
  destruct op as [|i|n d p|i n d p|i];
    try (left; destruct t, t0; reflexivity).
  destruct t, t0; try (left; reflexivity); right;
    rewrite run_create; cbv zeta;
    match goal with
    | |- context [existsb ?f ?l] =>
        let E := fresh "E" in
        destruct (existsb f l) eqn:E;
        [ apply (existsb_has_id _ (get_table _ db)) in E;
          exfalso; revert E; apply wf_table_fresh; apply Hwf
        | split; reflexivity ]
    end.
Qed.

(** X14: while any sequence of requests is served from a consistent database,
    the ids handed out by creates on a table are pairwise distinct, and
    none of them is below the sequence value the run started from (so none
    is an id of a row that was there). *)
Lemma created_ids_never_reused t reqs db :
  wf_db db ->
  NoDup (created t reqs db) /\
  Forall (fun i => id_seq (get_table t db) <= i) (created t reqs db).
Proof.
  revert db. induction reqs as [|req reqs IH]; intros db Hwf; simpl.
  - split; constructor.
  - destruct (IH _ (run_wf (app req) db Hwf)) as [Hnd Hge].
    pose proof (id_seq_monotone (app req) t db) as Hmono.
    assert (Hge' : Forall (fun i => id_seq (get_table t db) <= i)
                     (created t reqs (snd (run (app req) db)))).
    { rewrite Forall_forall in *. intros i Hi. apply Hge in Hi. lia. }
    destruct (request_cases req) as [->|[t0 [op ->]]].
    + destruct t; simpl; auto.
    + destruct (created_by_route t t0 op db Hwf) as [->|[-> Hseq]]; simpl; auto.
      split.
      * constructor; [|exact Hnd]. intros Hin.
        rewrite Forall_forall in Hge. apply Hge in Hin. lia.
      * constructor; [lia|exact Hge'].
Qed.

(** ** The Genre routes against the Movie routes *)

Lemma same_program_refl {A : Type} (h : Handler A) : same_program h h.
Proof. induction h; constructor; auto. Qed.

Lemma same_program_run {A : Type} (h h' : Handler A) :
  same_program h h' -> forall db, run h db = run h' db.
Proof.
  induction 1 as [a|e|q k k' _ IH|q k k' _ IH|q k k' _ IH|q k k' _ IH];
    intros db; simpl; try reflexivity;
    destruct (pg_exec q db) as [[e|[out st]] db']; auto.
Qed.

Lemma Genre_init_substitute kwargs :
  Genre_init kwargs = substitute Genre_of_Movie (Movie_init kwargs).
Proof.
  unfold Genre_init, Movie_init, field_str, field_int.
  destruct (lookup "name" kwargs) as [[| |?]|]; try reflexivity.
  destruct (lookup "description" kwargs) as [[| |?]|]; try reflexivity.
  destruct (lookup "popularity" kwargs) as [[| |?]|]; try reflexivity.
  destruct (lookup "id" kwargs) as [[| |?]|]; reflexivity.
Qed.

Lemma Movie_init_pure kwargs : exists o, Movie_init kwargs = pure o.
Proof.
  unfold Movie_init, field_str, field_int.
  destruct (lookup "name" kwargs) as [[| |?]|];
    try (eexists (inl _); reflexivity).
  destruct (lookup "description" kwargs) as [[| |?]|];
    try (eexists (inl _); reflexivity).
  destruct (lookup "popularity" kwargs) as [[| |?]|];
    try (eexists (inl _); reflexivity).
  destruct (lookup "id" kwargs) as [[| |?]|];
    try (eexists (inl _); reflexivity).
  eexists (inr _). reflexivity.
Qed.

Lemma Genre_of_record_substitute r :
  Genre_of_record r = substitute Genre_of_Movie (Movie_of_record r).
Proof.
  unfold Genre_of_record, Movie_of_record, getitem.
  destruct (lookup_last "id" r); [|reflexivity].
  destruct (lookup_last "name" r); [|reflexivity].
  destruct (lookup_last "description" r); [|reflexivity].
  destruct (lookup_last "popularity" r); [|reflexivity].
  apply Genre_init_substitute.
Qed.

Lemma Movie_of_record_pure r : exists o, Movie_of_record r = pure o.
Proof.
  unfold Movie_of_record, getitem.
  destruct (lookup_last "id" r); [|eexists (inl _); reflexivity].
  destruct (lookup_last "name" r); [|eexists (inl _); reflexivity].
  destruct (lookup_last "description" r); [|eexists (inl _); reflexivity].
  destruct (lookup_last "popularity" r); [|eexists (inl _); reflexivity].
  apply Movie_init_pure.
Qed.

Lemma comprehension_Movie_pure rs : exists o, comprehension Movie_of_record rs = pure o.
Proof.
  induction rs as [|r rs [o IH]]; simpl.
  - exists (inr []). reflexivity.
  - destruct (Movie_of_record_pure r) as [[e|m] ->]; simpl.
    + exists (inl e). reflexivity.
    + rewrite IH. destruct o as [e|ms]; simpl.
      * exists (inl e). reflexivity.
      * exists (inr (m :: ms)). reflexivity.
Qed.

Lemma comprehension_substitute rs :
  comprehension Genre_of_record rs
  = substitute (map Genre_of_Movie) (comprehension Movie_of_record rs).
Proof.
  induction rs as [|r rs IH]; simpl; [reflexivity|].
  rewrite Genre_of_record_substitute, IH.
  destruct (Movie_of_record_pure r) as [[e|m] ->]; simpl; [reflexivity|].
  destruct (comprehension_Movie_pure rs) as [[e|ms] ->]; reflexivity.
Qed.

(** As programs, the Genre routes are the Movie routes with Genre
    substituted, whatever the connection answers. *)
Lemma genre_route_same_program op :
  same_program (app (route T_genres op)) (genre_route_spec op).
Proof.
  unfold genre_route_spec.
  destruct op as [|i|n d p|i n d p|i]; simpl; constructor; intros x.
  - rewrite comprehension_substitute.
    destruct (comprehension_Movie_pure x) as [[e|ms] ->]; simpl; constructor.
  - destruct x as [[|c r]|]; simpl; try constructor.
    rewrite Genre_of_record_substitute.
    destruct (Movie_of_record_pure (c :: r)) as [[e|m] ->]; simpl; constructor.
  - change (GenreCreate_dict (GenreBase.Build n d p))
      with (MovieCreate_dict (MovieBase.Build n d p)).
    rewrite Genre_init_substitute.
    destruct (Movie_init_pure (("id", x) :: MovieCreate_dict (MovieBase.Build n d p)))
      as [[e|m] ->]; simpl; constructor.
  - destruct (String.eqb x "UPDATE 0"); simpl; [constructor|].
    apply same_program_refl.
  - destruct (String.eqb x "DELETE 0"); simpl; constructor.
Qed.

Lemma swap_swap db : swap (swap db) = db.
Proof. destruct db; reflexivity. Qed.

Lemma get_table_swap t db : get_table t (swap db) = get_table (other t) db.
Proof. destruct t; reflexivity. Qed.

Lemma set_table_swap t tb db : swap (set_table t tb (swap db)) = set_table (other t) tb db.
Proof. destruct t, db; reflexivity. Qed.

Lemma pg_exec_mirror q db :
  pg_exec (mirror_sql q) db
  = (fst (pg_exec q (swap db)), swap (snd (pg_exec q (swap db)))).
Proof.
  destruct q as [t|t i|t n d p|t n d p i|t i]; simpl;
    rewrite ?get_table_swap, ?swap_swap; try reflexivity;
    try destruct (existsb _ _); simpl; now rewrite set_table_swap.
Qed.

(** The only error the modelled database raises. *)
Lemma pg_exec_error q db e db' :
  pg_exec q db = (inl e, db') -> e = UniqueViolationError.
Proof.
  destruct q as [t|t i|t n d p|t n d p i|t i]; simpl; try discriminate.
  destruct (existsb _ _); intros H; now inversion H.
Qed.

Lemma run_substitute {A B : Type} (fr : A -> B) (h : Handler A) db :
  run (substitute fr h) db
  = (match fst (run h (swap db)) with
     | inl e => inl (mirror_exn e)
     | inr a => inr (fr a)
     end, swap (snd (run h (swap db)))).
Proof.
  revert db. induction h as [a|e|q k IH|q k IH|q k IH|q k IH]; intros db; simpl;
    try (now rewrite swap_swap);
    rewrite pg_exec_mirror;
    destruct (pg_exec q (swap db)) as [[e|[out st]] db'] eqn:E; simpl;
    try (apply pg_exec_error in E; subst e; reflexivity);
    rewrite IH, swap_swap; reflexivity.
Qed.

(** C9: each Genre route is, as a program, the Movie route with Genre
    substituted for Movie; run on a database it gives what the Movie route
    gives on the database with the genres table in the place of the movies
    table, up to the model class of the objects and the resource name in
    the messages. *)
Theorem C9_genre_routes_mirror_movie_routes (op : Op) (db : Database) :
  same_program (app (route T_genres op)) (genre_route_spec op) /\
  run (app (route T_genres op)) db
  = (mirror_outcome (fst (run (app (route T_movies op)) (swap db))),
     swap (snd (run (app (route T_movies op)) (swap db)))).
Proof.
  split; [apply genre_route_same_program|].
  rewrite (same_program_run _ _ (genre_route_same_program op)).
  unfold genre_route_spec. rewrite run_substitute. reflexivity.
Qed.

(** ** The modelled database as a connection *)

(** The interpreter is the run over the modelled database. *)
Lemma run_runs {A : Type} (h : Handler A) db :
  runs pg_answers h db (fst (run h db)) (snd (run h db)).
Proof.
  revert db. induction h as [a|e|q k IH|q k IH|q k IH|q k IH]; intros db; simpl;
    try constructor;
    destruct (pg_exec q db) as [[e|[out st]] db'] eqn:E; simpl;
    try (eapply runs_error; [reflexivity | exact E]);
    (eapply runs_answer; [reflexivity | exact E | apply IH]).
Qed.

(** * Further properties of the routes *)

(** ** Reading back what is stored *)

Lemma matching_unique tb r :
  NoDup (ids tb) -> In r (rows tb) -> matching (col_id r) tb = [r].
Proof.
  unfold matching, ids. induction (rows tb) as [|x rs IH]; simpl; intros Hnd Hin;
    [contradiction|].
  inversion Hnd as [|y l Hnin Hnd']; subst.
  destruct Hin as [->|Hin].
  - unfold has_id at 1. rewrite Z.eqb_refl. f_equal.
    apply (proj2 (matching_nil (col_id r) {| rows := rs; id_seq := 0 |})). exact Hnin.
  - destruct (has_id (col_id r) x) eqn:E; [|auto].
    apply has_id_true in E. exfalso. apply Hnin. rewrite E. now apply in_map.
Qed.

(** X1: get-by-id on the id of a stored row returns the object of that very
    row (name, description, popularity and id as stored) and leaves the
    database as it was, provided ids are unique in the table. *)
Theorem get_present_returns_row (t : TableName) (db : Database) (r : Tuple) :
  NoDup (ids (get_table t db)) ->
  In r (rows (get_table t db)) ->
  run (app (route t (Get (col_id r)))) db
  = (inr (json_object t (col_id r) (col_name r) (col_description r) (col_popularity r)),
     db).
Proof.
  intros Hnd Hin. rewrite run_get, (matching_unique _ _ Hnd Hin). reflexivity.
Qed.

Lemma get_present_returns_row_witness :
  NoDup (ids (get_table T_movies sample_db)) /\
  In (Build_Tuple 2 "Alien" "Horror" 90) (rows (get_table T_movies sample_db)) /\
  run (app (GET_movie 2)) sample_db
  = (inr (JsonMovie (Movie.Build "Alien" "Horror" 90 2)), sample_db).
Proof.
  assert (Hnd : NoDup (ids (get_table T_movies sample_db))) by apply wf_sample_db.
  assert (Hin : In (Build_Tuple 2 "Alien" "Horror" 90) (rows (get_table T_movies sample_db)))
    by (simpl; auto).
  split; [exact Hnd|]. split; [exact Hin|].
  exact (get_present_returns_row T_movies sample_db _ Hnd Hin).
Defined.

(** X2: after an update of an id that is in the table, get-by-id on that id
    returns the object the update answered with: the path id with the
    submitted name, description and popularity. *)
Theorem get_after_update
    (t : TableName) (i : Z) (n d : string) (p : Z) (db : Database) :
  In i (ids (get_table t db)) ->
  let db1 := snd (run (app (route t (Update i n d p))) db) in
  run (app (route t (Get i))) db1 = (inr (json_object t i n d p), db1) /\
  fst (run (app (route t (Update i n d p))) db) = inr (json_object t i n d p).
Proof.
  intros Hin db1. destruct (matching_cons _ _ Hin) as [r [rs Hm]].
  assert (Hr : col_id r = i).
  { apply (matching_In i (get_table t db) r). rewrite Hm. left. reflexivity. }
  split.
  - subst db1. rewrite run_get, run_state, get_set_table. simpl effect.
    rewrite matching_table_update, Hm. simpl. unfold updated.
    apply has_id_true in Hr. rewrite Hr. apply has_id_true in Hr.
    unfold json_of_tuple. simpl. rewrite Hr. reflexivity.
  - rewrite run_update, Hm. reflexivity.
Qed.

Lemma get_after_update_witness :
  In 1 (ids (get_table T_movies sample_db)) /\
  fst (run (app (GET_movie 1))
         (snd (run (app (PUT_movie 1 (MovieBase.Build "Dune" "Updated" 98))) sample_db)))
  = inr (JsonMovie (Movie.Build "Dune" "Updated" 98 1)).
Proof.
  assert (H : In 1 (ids (get_table T_movies sample_db))) by (simpl; auto).
  split; [exact H|].
  exact (f_equal fst (proj1 (get_after_update T_movies 1 "Dune" "Updated" 98 sample_db H))).
Defined.

(** ** Deleting *)

(** X3: a delete of an id that is in the table answers with the confirmation
    message only, carrying no field of the deleted row; afterwards exactly
    the rows with another id are left, and with unique ids the table has one
    row less. *)
Theorem delete_present_succeeds (t : TableName) (i : Z) (db : Database) :
  NoDup (ids (get_table t db)) ->
  In i (ids (get_table t db)) ->
  let db1 := snd (run (app (route t (Delete i))) db) in
  fst (run (app (route t (Delete i))) db)
  = inr (JsonDict [("message", VStr (match t with
                                     | T_movies => "Movie deleted"
                                     | T_genres => "Genre deleted"
                                     end))]) /\
  (forall r, In r (rows (get_table t db1)) <-> In r (rows (get_table t db)) /\ col_id r <> i) /\
  S (List.length (rows (get_table t db1))) = List.length (rows (get_table t db)).
Proof.
  intros Hnd Hin db1. destruct (matching_cons _ _ Hin) as [r [rs Hm]].
  subst db1. rewrite run_delete, Hm. simpl fst. simpl snd. rewrite get_set_table.
  split; [destruct t; reflexivity|]. split; [intros x; apply rows_table_delete|].
  pose proof (matching_at_most_one i _ Hnd) as Hle.
  pose proof (filter_length (has_id i) (rows (get_table t db))) as Hlen.
  unfold matching in *. rewrite Hm in Hle, Hlen. simpl in *.
  destruct rs; simpl in *; lia.
Qed.

Lemma delete_present_succeeds_witness :
  NoDup (ids (get_table T_genres sample_db)) /\
  In 1 (ids (get_table T_genres sample_db)) /\
  fst (run (app (DELETE_genre 1)) sample_db)
  = inr (JsonDict [("message", VStr "Genre deleted")]).
Proof.
  assert (Hnd : NoDup (ids (get_table T_genres sample_db))) by apply wf_sample_db.
  assert (Hin : In 1 (ids (get_table T_genres sample_db))) by (simpl; auto).
  split; [exact Hnd|]. split; [exact Hin|].
  exact (proj1 (delete_present_succeeds T_genres 1 sample_db Hnd Hin)).
Defined.

(** X4: a delete repeated on the same id is answered with the 404 exception
    and leaves the database exactly as the first delete left it, whether
    or not the first one found a row. *)
Theorem delete_twice_not_found (t : TableName) (i : Z) (db : Database) :
  let db1 := snd (run (app (route t (Delete i))) db) in
  run (app (route t (Delete i))) db1 = (inl (not_found t), db1).
Proof.
  intros db1. subst db1. rewrite run_state. simpl effect.
  rewrite run_delete, get_set_table, matching_table_delete, set_set_table.
  f_equal. f_equal. apply table_delete_absent.
  apply matching_nil, matching_table_delete.
Qed.

(** ** What the list route shows after a write *)

Lemma payload_ids_json_list t rs : payload_ids (json_list t rs) = map col_id rs.
Proof. destruct t; simpl; rewrite map_map; reflexivity. Qed.

(** X5: after a create on a consistent table the list route shows every object
    it showed before and the created one: one object more, the new id among
    them. *)
Theorem list_after_create (t : TableName) (n d : string) (p : Z) (db : Database) :
  wf_table (get_table t db) ->
  let db1 := snd (run (app (route t (Create n d p))) db) in
  exists before after,
    fst (run (app (route t List_)) db) = inr before /\
    fst (run (app (route t List_)) db1) = inr after /\
    payload_length after = S (payload_length before) /\
    In (id_seq (get_table t db)) (payload_ids after) /\
    ~ In (id_seq (get_table t db)) (payload_ids before) /\
    forall j, In j (payload_ids before) -> In j (payload_ids after).
Proof.
  intros Hwf db1. pose proof (wf_table_fresh _ Hwf) as Hfresh.
  assert (Hex : existsb (has_id (id_seq (get_table t db))) (rows (get_table t db)) = false).
  { destruct (existsb _ _) eqn:E; [|reflexivity].
    apply existsb_has_id in E. contradiction. }
  exists (json_list t (rows (get_table t db))),
         (json_list t (rows (get_table t db1))).
  rewrite !run_list. split; [reflexivity|]. split; [reflexivity|].
  unfold payload_length. rewrite !payload_ids_json_list.
  subst db1. rewrite run_state, get_set_table. simpl effect. rewrite Hex.
  change (map col_id (rows (table_insert n d p (get_table t db))))
    with (ids (table_insert n d p (get_table t db))).
  rewrite ids_table_insert. fold (ids (get_table t db)).
  rewrite length_app. simpl. repeat split.
  - lia.
  - apply in_or_app. right. left. reflexivity.
  - exact Hfresh.
  - intros j Hj. apply in_or_app. left. exact Hj.
Qed.

Lemma list_after_create_witness :
  wf_table (get_table T_movies sample_db) /\
  exists after,
    fst (run (app GET_movies)
           (snd (run (app (POST_movies (MovieBase.Build "Heat" "Crime" 88))) sample_db)))
    = inr after /\
    payload_length after = 3%nat.
Proof.
  assert (H : wf_table (get_table T_movies sample_db)) by apply wf_sample_db.
  split; [exact H|].
  destruct (list_after_create T_movies "Heat" "Crime" 88 sample_db H)
    as [before [after [Hb [Ha [Hlen _]]]]].
  exists after. split; [exact Ha|].
  rewrite Hlen. vm_compute in Hb. injection Hb as <-. reflexivity.
Defined.

(** X6: an update, whether or not it finds its id, never changes which ids
    the list route shows nor how many: the ids listed afterwards are the
    ids listed before, rearranged at most. *)
Theorem list_ids_after_update
    (t : TableName) (i : Z) (n d : string) (p : Z) (db : Database) :
  let db1 := snd (run (app (route t (Update i n d p))) db) in
  exists before after,
    fst (run (app (route t List_)) db) = inr before /\
    fst (run (app (route t List_)) db1) = inr after /\
    Permutation (payload_ids after) (payload_ids before) /\
    payload_length after = payload_length before.
Proof.
  intros db1.
  exists (json_list t (rows (get_table t db))),
         (json_list t (rows (get_table t db1))).
  rewrite !run_list. split; [reflexivity|]. split; [reflexivity|].
  assert (Hp : Permutation (payload_ids (json_list t (rows (get_table t db1))))
                 (payload_ids (json_list t (rows (get_table t db))))).
  { rewrite !payload_ids_json_list. subst db1.
    rewrite run_state, get_set_table. apply ids_table_update. }
  split; [exact Hp|]. unfold payload_length. now apply Permutation_length.
Qed.

(** ** Which requests fail, and how *)

(** X7: on a consistent database no request fails with anything but the 404
    exception of its resource, and that one only for a get, update or
    delete of an id that is not in the table; every other request returns
    a payload. *)
Theorem consistent_db_only_not_found (t : TableName) (op : Op) (db : Database) :
  wf_table (get_table t db) ->
  (exists obj, fst (run (app (route t op)) db) = inr obj) \/
  (fst (run (app (route t op)) db) = inl (not_found t) /\
   exists i, ~ In i (ids (get_table t db)) /\
     (op = Get i \/ op = Delete i \/ exists n d p, op = Update i n d p)).
Proof.
  intros Hwf. destruct op as [|i|n d p|i n d p|i].
  - left. rewrite run_list. simpl. eauto.
  - rewrite run_get. destruct (matching i (get_table t db)) eqn:E; [right|left; simpl; eauto].
    split; [reflexivity|]. exists i. split; [now apply matching_nil|auto].
  - left. rewrite run_create. cbv zeta.
    destruct (existsb _ _) eqn:E; [|simpl; eauto].
    apply existsb_has_id in E. exfalso. revert E. now apply wf_table_fresh.
  - rewrite run_update. destruct (matching i (get_table t db)) eqn:E; [right|left; simpl; eauto].
    split; [reflexivity|]. exists i. split; [now apply matching_nil|eauto 6].
  - rewrite run_delete. destruct (matching i (get_table t db)) eqn:E; [right|left; simpl; eauto].
    split; [reflexivity|]. exists i. split; [now apply matching_nil|auto].
Qed.

Lemma consistent_db_only_not_found_witness :
  wf_table (get_table T_genres sample_db) /\
  ((exists obj, fst (run (app (route T_genres (Update 1 "Drama" "Slow" 51))) sample_db)
               = inr obj) \/
   (fst (run (app (route T_genres (Update 1 "Drama" "Slow" 51))) sample_db)
    = inl (not_found T_genres) /\
    exists i, ~ In i (ids (get_table T_genres sample_db)) /\
      (Update 1 "Drama" "Slow" 51 = Get i \/ Update 1 "Drama" "Slow" 51 = Delete i \/
       exists n d p, Update 1 "Drama" "Slow" 51 = Update i n d p))).
Proof.
  assert (H : wf_table (get_table T_genres sample_db)) by apply wf_sample_db.
  split; [exact H|].
  exact (consistent_db_only_not_found T_genres (Update 1 "Drama" "Slow" 51) sample_db H).
Defined.

(** ** The two resources do not see each other *)

Lemma run_outcome_local t op db1 db2 :
  get_table t db1 = get_table t db2 ->
  fst (run (app (route t op)) db1) = fst (run (app (route t op)) db2).
Proof.
  intros H. destruct op as [|i|n d p|i n d p|i].
  - now rewrite !run_list, H.
  - now rewrite !run_get, H.
  - rewrite !run_create. cbv zeta. rewrite H. now destruct (existsb _ _).
  - now rewrite !run_update, H.
  - now rewrite !run_delete, H.
Qed.

(** X8: the response of a route of one resource, and what it does to that
    resource's table, depend on that table only: two databases that agree
    on it give the same response and the same table afterwards, whatever
    the other table holds. *)
Theorem route_depends_only_on_its_table
    (t : TableName) (op : Op) (db1 db2 : Database) :
  get_table t db1 = get_table t db2 ->
  fst (run (app (route t op)) db1) = fst (run (app (route t op)) db2) /\
  get_table t (snd (run (app (route t op)) db1))
  = get_table t (snd (run (app (route t op)) db2)).
Proof.
  intros H. split; [now apply run_outcome_local|].
  now rewrite !run_state, !get_set_table, H.
Qed.

Lemma route_depends_only_on_its_table_witness :
  get_table T_movies sample_db = get_table T_movies sample_db' /\
  fst (run (app (DELETE_movie 2)) sample_db) = fst (run (app (DELETE_movie 2)) sample_db').
Proof.
  assert (H : get_table T_movies sample_db = get_table T_movies sample_db')
    by reflexivity.
  split; [exact H|].
  exact (proj1 (route_depends_only_on_its_table T_movies (Delete 2) sample_db sample_db' H)).
Defined.

Lemma set_table_comm t tb tb' db :
  set_table t tb (set_table (other t) tb' db) = set_table (other t) tb' (set_table t tb db).
Proof. destruct t; reflexivity. Qed.

(** X9: a Movie request and a Genre request can be served in either order:
    both orders end in the same database, and each request gets the same
    response in both. *)
Theorem movie_and_genre_requests_commute (op_m op_g : Op) (db : Database) :
  let m_first := run (app (route T_movies op_m)) db in
  let g_second := run (app (route T_genres op_g)) (snd m_first) in
  let g_first := run (app (route T_genres op_g)) db in
  let m_second := run (app (route T_movies op_m)) (snd g_first) in
  snd g_second = snd m_second /\
  fst m_first = fst m_second /\
  fst g_second = fst g_first.
Proof.
  intros m_first g_second g_first m_second.
  assert (Hm : get_table T_movies db = get_table T_movies (snd g_first)).
  { subst g_first. rewrite run_state. reflexivity. }
  assert (Hg : get_table T_genres (snd m_first) = get_table T_genres db).
  { subst m_first. rewrite run_state. reflexivity. }
  split; [|split].
  - subst g_second m_second. rewrite !run_state, <- Hm, Hg.
    subst m_first g_first. rewrite !run_state.
    apply (set_table_comm T_genres).
  - subst m_first m_second. now apply run_outcome_local.
  - subst g_second g_first. now apply run_outcome_local.
Qed.

(** ** The handlers over any connection *)

Lemma runs_pure {World : Type}
    (answers : Sql -> World -> Exn + Answer -> World -> Prop)
    {A : Type} (o' o : Outcome A) w w' :
  runs answers (pure o') w o w' -> o = o' /\ w' = w.
Proof.
  destruct o' as [e|a]; simpl; intros H; inversion H; subst; auto;
    simpl in *; discriminate.
Qed.

Lemma runs_await {World : Type}
    (answers : Sql -> World -> Exn + Answer -> World -> Prop)
    {A : Type} (h : Handler A) q k w o w' :
  awaited h = Some (q, k) ->
  runs answers h w o w' ->
  (exists e, o = inl e /\ answers q w (inl e) w') \/
  (exists ans w1, answers q w (inr ans) w1 /\ runs answers (k ans) w1 o w').
Proof.
  intros Haw H.
  inversion H as [a w0|e w0|h0 q0 k0 w0 e w0' Haw0 Hans|h0 q0 k0 w0 ans w0' o0 w0'' Haw0 Hans Hk];
    subst; simpl in Haw; try discriminate;
    rewrite Haw in Haw0; injection Haw0 as <- <-.
  - left. eauto.
  - right. eauto.
Qed.

Lemma Movie_init_outcome kwargs :
  exists o, Movie_init kwargs = pure o /\
    match o with
    | inl e => not_http e
    | inr m =>
        lookup "name" kwargs = Some (VStr (Movie.name m)) /\
        lookup "description" kwargs = Some (VStr (Movie.description m)) /\
        lookup "popularity" kwargs = Some (VInt (Movie.popularity m)) /\
        lookup "id" kwargs = Some (VInt (Movie.id m))
    end.
Proof.
  unfold Movie_init, field_str, field_int.
  destruct (lookup "name" kwargs) as [[| |?]|];
    try (eexists (inl _); split; [reflexivity|exact I]).
  destruct (lookup "description" kwargs) as [[| |?]|];
    try (eexists (inl _); split; [reflexivity|exact I]).
  destruct (lookup "popularity" kwargs) as [[| |?]|];
    try (eexists (inl _); split; [reflexivity|exact I]).
  destruct (lookup "id" kwargs) as [[| |?]|];
    try (eexists (inl _); split; [reflexivity|exact I]).
  eexists (inr _). split; [reflexivity|]. simpl. auto.
Qed.

Lemma Genre_init_outcome kwargs :
  exists o, Genre_init kwargs = pure o /\
    match o with
    | inl e => not_http e
    | inr g =>
        lookup "name" kwargs = Some (VStr (Genre.name g)) /\
        lookup "description" kwargs = Some (VStr (Genre.description g)) /\
        lookup "popularity" kwargs = Some (VInt (Genre.popularity g)) /\
        lookup "id" kwargs = Some (VInt (Genre.id g))
    end.
Proof.
  unfold Genre_init, field_str, field_int.
  destruct (lookup "name" kwargs) as [[| |?]|];
    try (eexists (inl _); split; [reflexivity|exact I]).
  destruct (lookup "description" kwargs) as [[| |?]|];
    try (eexists (inl _); split; [reflexivity|exact I]).
  destruct (lookup "popularity" kwargs) as [[| |?]|];
    try (eexists (inl _); split; [reflexivity|exact I]).
  destruct (lookup "id" kwargs) as [[| |?]|];
    try (eexists (inl _); split; [reflexivity|exact I]).
  eexists (inr _). split; [reflexivity|]. simpl. auto.
Qed.

Lemma Movie_of_record_outcome r :
  exists o, Movie_of_record r = pure o /\ forall e, o = inl e -> not_http e.
Proof.
  unfold Movie_of_record, getitem.
  destruct (lookup_last "id" r);
    [|eexists (inl _); split; [reflexivity|intros e [= <-]; exact I]].
  destruct (lookup_last "name" r);
    [|eexists (inl _); split; [reflexivity|intros e [= <-]; exact I]].
  destruct (lookup_last "description" r);
    [|eexists (inl _); split; [reflexivity|intros e [= <-]; exact I]].
  destruct (lookup_last "popularity" r);
    [|eexists (inl _); split; [reflexivity|intros e [= <-]; exact I]].
  simpl. destruct (Movie_init_outcome [("id", v); ("name", v0); ("description", v1);
                                       ("popularity", v2)]) as [o [-> Ho]].
  exists o. split; [reflexivity|]. intros e ->. exact Ho.
Qed.

Lemma Genre_of_record_outcome r :
  exists o, Genre_of_record r = pure o /\ forall e, o = inl e -> not_http e.
Proof.
  unfold Genre_of_record, getitem.
  destruct (lookup_last "id" r);
    [|eexists (inl _); split; [reflexivity|intros e [= <-]; exact I]].
  destruct (lookup_last "name" r);
    [|eexists (inl _); split; [reflexivity|intros e [= <-]; exact I]].
  destruct (lookup_last "description" r);
    [|eexists (inl _); split; [reflexivity|intros e [= <-]; exact I]].
  destruct (lookup_last "popularity" r);
    [|eexists (inl _); split; [reflexivity|intros e [= <-]; exact I]].
  simpl. destruct (Genre_init_outcome [("id", v); ("name", v0); ("description", v1);
                                       ("popularity", v2)]) as [o [-> Ho]].
  exists o. split; [reflexivity|]. intros e ->. exact Ho.
Qed.

Lemma comprehension_outcome {X Y : Type} (f : X -> Handler Y) xs :
  (forall x, exists o, f x = pure o /\ forall e, o = inl e -> not_http e) ->
  exists o, comprehension f xs = pure o /\ forall e, o = inl e -> not_http e.
Proof.
  intros Hf. induction xs as [|x xs [o [IH Ho]]]; simpl.
  - exists (inr []). split; [reflexivity|discriminate].
  - destruct (Hf x) as [[e|y] [-> Hx]]; simpl.
    + exists (inl e). split; [reflexivity|].
      intros e0 [= <-]. now apply Hx.
    + rewrite IH. destruct o as [e|ys]; simpl.
      * exists (inl e). split; [reflexivity|exact Ho].
      * exists (inr (y :: ys)). split; [reflexivity|discriminate].
Qed.

Ltac give_outcome :=
  match goal with
  | |- exists o, Raise ?e = pure o /\ _ => exists (inl e)
  | |- exists o, Return ?a = pure o /\ _ => exists (inr a)
  end.

(** What a route does once the connection has answered its statement:
    it stops, raising nothing of its own but the 404 exception of its
    resource, and returning for a write what the request carried. *)
Lemma route_after_answer t op :
  exists k,
    awaited (app (route t op)) = Some (statement t op, k) /\
    forall ans, exists o,
      k ans = pure o /\
      (forall e, o = inl e -> not_http e \/ e = not_found t) /\
      (forall obj, o = inr obj -> echoes t op obj).
Proof.
  destruct t, op as [|i|n d p|i n d p|i]; simpl;
    (eexists; split; [reflexivity|]); intros [out st]; simpl.
  - destruct (comprehension_outcome Movie_of_record out Movie_of_record_outcome)
      as [[e|ms] [-> H]]; simpl; give_outcome; (split; [reflexivity|]); split;
      intros x [= <-]; auto.
  - destruct out as [|[|c r] out']; simpl;
      try (give_outcome; (split; [reflexivity|]); split; intros x [= <-]; now right).
    destruct (Movie_of_record_outcome (c :: r)) as [[e|m] [-> H]]; simpl;
      give_outcome; (split; [reflexivity|]); split; intros x [= <-]; auto.
  - destruct (Movie_init_outcome
                (("id", first_value out) :: MovieCreate_dict (MovieBase.Build n d p)))
      as [[e|[n' d' p' i']] [-> H]]; simpl;
      give_outcome; (split; [reflexivity|]); split; intros x [= <-]; auto.
    simpl in H. destruct H as [[= <-] [[= <-] [[= <-] _]]]. now exists i'.
  - destruct (String.eqb st "UPDATE 0"); simpl;
      give_outcome; (split; [reflexivity|]); split; intros x [= <-]; auto.
  - destruct (String.eqb st "DELETE 0"); simpl;
      give_outcome; (split; [reflexivity|]); split; intros x [= <-]; auto.
  - destruct (comprehension_outcome Genre_of_record out Genre_of_record_outcome)
      as [[e|gs] [-> H]]; simpl; give_outcome; (split; [reflexivity|]); split;
      intros x [= <-]; auto.
  - destruct out as [|[|c r] out']; simpl;
      try (give_outcome; (split; [reflexivity|]); split; intros x [= <-]; now right).
    destruct (Genre_of_record_outcome (c :: r)) as [[e|g] [-> H]]; simpl;
      give_outcome; (split; [reflexivity|]); split; intros x [= <-]; auto.
  - destruct (Genre_init_outcome
                (("id", first_value out) :: GenreCreate_dict (GenreBase.Build n d p)))
      as [[e|[n' d' p' i']] [-> H]]; simpl;
      give_outcome; (split; [reflexivity|]); split; intros x [= <-]; auto.
    simpl in H. destruct H as [[= <-] [[= <-] [[= <-] _]]]. now exists i'.
  - destruct (String.eqb st "UPDATE 0"); simpl;
      give_outcome; (split; [reflexivity|]); split; intros x [= <-]; auto.
  - destruct (String.eqb st "DELETE 0"); simpl;
      give_outcome; (split; [reflexivity|]); split; intros x [= <-]; auto.
Qed.

(** X10: whatever the connection answers, a resource route sends the one
    statement of its operation and never a second one: not after an error,
    not after a record with missing columns, not to read back a write. *)
Theorem route_sends_one_statement (t : TableName) (op : Op) :
  sends_only (statement t op) (app (route t op)).
Proof.
  destruct (route_after_answer t op) as [k [Haw Hk]].
  exists k. split; [exact Haw|].
  intros ans. destruct (Hk ans) as [[e|obj] [-> _]]; reflexivity.
Qed.

(** X12: over any connection that does not itself raise HTTP exceptions, the
    only HTTP exception that leaves a resource route is the 404 of that
    resource, with detail "Movie not found" or "Genre not found". *)
Theorem http_exception_is_not_found
    (World : Type) (answers : Sql -> World -> Exn + Answer -> World -> Prop)
    (t : TableName) (op : Op) (w w' : World) (code : Z) (detail : string) :
  (forall q w0 e w1, answers q w0 (inl e) w1 -> not_http e) ->
  runs answers (app (route t op)) w (inl (HTTPException code detail)) w' ->
  code = 404 /\
  detail = match t with
           | T_movies => "Movie not found"
           | T_genres => "Genre not found"
           end.
Proof.
  intros Hconn H. destruct (route_after_answer t op) as [k [Haw Hk]].
  destruct (runs_await answers _ _ _ _ _ _ Haw H) as [[e [[= <-] Hans]]|[ans [w1 [_ Hrun]]]].
  - apply Hconn in Hans. contradiction.
  - destruct (Hk ans) as [o [Eo [Herr _]]]. rewrite Eo in Hrun.
    apply runs_pure in Hrun. destruct Hrun as [<- _].
    destruct (Herr _ eq_refl) as [Hn|Hn]; [contradiction|].
    destruct t; now inversion Hn.
Qed.

Lemma pg_errors_not_http q (w0 w1 : Database) e :
  pg_answers q w0 (inl e) w1 -> not_http e.
Proof. intros H. apply pg_exec_error in H. subst e. exact I. Qed.

Lemma http_exception_is_not_found_witness :
  (forall q w0 e w1, pg_answers q w0 (inl e) w1 -> not_http e) /\
  runs pg_answers (app (route T_genres (Delete 7))) sample_db
    (inl (HTTPException 404 "Genre not found")) sample_db /\
  (404 = 404 /\ "Genre not found" = "Genre not found").
Proof.
  assert (Hconn : forall q w0 e w1, pg_answers q w0 (inl e) w1 -> not_http e)
    by (intros q w0 e w1; apply pg_errors_not_http).
  assert (Hrun : runs pg_answers (app (route T_genres (Delete 7))) sample_db
                   (inl (HTTPException 404 "Genre not found")) sample_db)
    by exact (run_runs (app (DELETE_genre 7)) sample_db).
  split; [exact Hconn|]. split; [exact Hrun|].
  exact (http_exception_is_not_found Database pg_answers T_genres (Delete 7)
           sample_db sample_db 404 "Genre not found" Hconn Hrun).
Defined.

(** X13: over any connection that delivers the id of an insert as an
    [int] or not at all, when a write route returns it returns what the
    request carried: an update the path id with the submitted fields, a
    create the submitted fields with some id, a delete the confirmation
    message; nothing the connection delivered, other than the new id, ever
    enters the response. *)
Theorem write_response_echoes_request
    (World : Type) (answers : Sql -> World -> Exn + Answer -> World -> Prop)
    (t : TableName) (op : Op) (w w' : World) (obj : Payload) :
  (forall n d p w0 ans w1,
     answers (InsertReturningId t n d p) w0 (inr ans) w1 ->
     forall s, first_value (fst ans) <> VStr s) ->
  runs answers (app (route t op)) w (inr obj) w' ->
  echoes t op obj.
Proof.
  intros _ H. destruct (route_after_answer t op) as [k [Haw Hk]].
  destruct (runs_await answers _ _ _ _ _ _ Haw H) as [[e [[=] _]]|[ans [w1 [_ Hrun]]]].
  destruct (Hk ans) as [o [Eo [_ Hok]]]. rewrite Eo in Hrun.
  apply runs_pure in Hrun. destruct Hrun as [<- _]. now apply Hok.
Qed.

Lemma pg_insert_delivers_int t n d p (w0 w1 : Database) ans :
  pg_answers (InsertReturningId t n d p) w0 (inr ans) w1 ->
  forall s, first_value (fst ans) <> VStr s.
Proof.
  unfold pg_answers. simpl. destruct (existsb _ _); intros [= <- _] s; discriminate.
Qed.

Lemma write_response_echoes_request_witness :
  (forall n d p w0 ans w1,
     pg_answers (InsertReturningId T_movies n d p) w0 (inr ans) w1 ->
     forall s, first_value (fst ans) <> VStr s) /\
  runs pg_answers (app (route T_movies (Create "Heat" "Crime" 88))) sample_db
    (inr (JsonMovie (Movie.Build "Heat" "Crime" 88 3)))
    (snd (run (app (route T_movies (Create "Heat" "Crime" 88))) sample_db)) /\
  echoes T_movies (Create "Heat" "Crime" 88)
    (JsonMovie (Movie.Build "Heat" "Crime" 88 3)).
Proof.
  assert (Hconn : forall n d p w0 ans w1,
             pg_answers (InsertReturningId T_movies n d p) w0 (inr ans) w1 ->
             forall s, first_value (fst ans) <> VStr s)
    by (intros n d p w0 ans w1; apply pg_insert_delivers_int).
  assert (Hrun :
    runs pg_answers (app (route T_movies (Create "Heat" "Crime" 88))) sample_db
      (inr (JsonMovie (Movie.Build "Heat" "Crime" 88 3)))
      (snd (run (app (route T_movies (Create "Heat" "Crime" 88))) sample_db)))
    by exact (run_runs (app (POST_movies (MovieBase.Build "Heat" "Crime" 88))) sample_db).
  split; [exact Hconn|]. split; [exact Hrun|].
  exact (write_response_echoes_request Database pg_answers T_movies
           (Create "Heat" "Crime" 88) sample_db _ _ Hconn Hrun).
Defined.

Lemma created_ids_never_reused_witness :
  wf_db sample_db /\
  NoDup (created T_movies
           [ POST_movies (MovieBase.Build "Heat" "Crime" 88);
             DELETE_movie 3;
             POST_movies (MovieBase.Build "Ran" "Epic" 97) ]
           sample_db).
Proof.
  split; [exact wf_sample_db|].
  exact (proj1 (created_ids_never_reused T_movies _ sample_db wf_sample_db)).
Defined.

(** ** List and get-by-id agree *)

Lemma items_json_list t rs : items (json_list t rs) = map (json_of_tuple t) rs.
Proof. destruct t; simpl; rewrite map_map; reflexivity. Qed.

(** X15: in every state the service reaches from empty tables, the ids the
    list route shows are pairwise distinct, each listed object carries one
    id and get-by-id on that id returns that very object, and whatever
    get-by-id returns for an id is listed and carries that id. *)
Theorem list_shows_exactly_what_get_returns (t : TableName) (db : Database) :
  reachable db ->
  exists objs,
    fst (run (app (route t List_)) db) = inr objs /\
    NoDup (payload_ids objs) /\
    (forall obj,
       In obj (items objs) ->
       exists i, payload_ids obj = [i] /\
                 fst (run (app (route t (Get i))) db) = inr obj) /\
    (forall i obj,
       fst (run (app (route t (Get i))) db) = inr obj ->
       In obj (items objs) /\ payload_ids obj = [i]).
Proof.
  intros Hreach. apply reachable_wf in Hreach.
  pose proof (wf_get_table t db Hreach) as [Hnd _].
  exists (json_list t (rows (get_table t db))). rewrite run_list.
  split; [reflexivity|]. split; [now rewrite payload_ids_json_list|].
  rewrite items_json_list. split.
  - intros obj Hobj. apply in_map_iff in Hobj. destruct Hobj as [r [<- Hr]].
    exists (col_id r). split; [destruct t; reflexivity|].
    rewrite run_get, (matching_unique _ _ Hnd Hr). reflexivity.
  - intros i obj Hget. rewrite run_get in Hget. simpl in Hget.
    destruct (matching i (get_table t db)) as [|r rs] eqn:E; [discriminate|].
    assert (Hr : In r (rows (get_table t db)) /\ col_id r = i).
    { apply (matching_In i (get_table t db) r). rewrite E. left. reflexivity. }
    injection Hget as <-. split.
    + apply in_map_iff. exists r. split; [reflexivity|apply Hr].
    + destruct Hr as [_ <-]. destruct t; reflexivity.
Qed.

Lemma list_shows_exactly_what_get_returns_witness :
  reachable (snd (run (app (POST_genres (GenreBase.Build "Noir" "Dark" 7))) empty_db)) /\
  exists objs,
    fst (run (app GET_genres)
           (snd (run (app (POST_genres (GenreBase.Build "Noir" "Dark" 7))) empty_db)))
    = inr objs /\
    forall obj,
      In obj (items objs) ->
      exists i, payload_ids obj = [i] /\
        fst (run (app (GET_genre i))
               (snd (run (app (POST_genres (GenreBase.Build "Noir" "Dark" 7))) empty_db)))
        = inr obj.
Proof.
  assert (H : reachable
                (snd (run (app (POST_genres (GenreBase.Build "Noir" "Dark" 7))) empty_db)))
    by (apply reachable_step; apply reachable_empty).
  split; [exact H|].
  destruct (list_shows_exactly_what_get_returns T_genres _ H) as [objs [Hl [_ [Hg _]]]].
  exists objs. split; [exact Hl|exact Hg].
Defined.

(** ** Writes to one id leave the others readable as before *)

(** X16: what get-by-id answers for an id is not changed by an update or a
    delete of another id, nor by a create that is given another id. *)
Theorem get_unaffected_by_writes_to_other_ids
    (t : TableName) (i j : Z) (db : Database) :
  j <> i ->
  (forall n d p,
     fst (run (app (route t (Get j))) (snd (run (app (route t (Update i n d p))) db)))
     = fst (run (app (route t (Get j))) db)) /\
  fst (run (app (route t (Get j))) (snd (run (app (route t (Delete i))) db)))
  = fst (run (app (route t (Get j))) db) /\
  (forall n d p,
     id_seq (get_table t db) = i ->
     fst (run (app (route t (Get j))) (snd (run (app (route t (Create n d p))) db)))
     = fst (run (app (route t (Get j))) db)).
Proof.
  intros Hji. split; [|split].
  - intros n d p. rewrite !run_get, run_state, get_set_table. simpl effect.
    now rewrite matching_table_update_other.
  - rewrite !run_get, run_state, get_set_table. simpl effect.
    now rewrite matching_table_delete_other.
  - intros n d p Hseq. rewrite !run_get, run_state, get_set_table. simpl effect.
    destruct (existsb _ _); [reflexivity|].
    rewrite matching_table_insert, Hseq.
    destruct (Z.eqb_spec i j) as [E|_]; [congruence|]. now rewrite app_nil_r.
Qed.

Lemma get_unaffected_by_writes_to_other_ids_witness :
  2 <> 1 /\
  fst (run (app (GET_movie 2)) (snd (run (app (DELETE_movie 1)) sample_db)))
  = fst (run (app (GET_movie 2)) sample_db).
Proof.
  assert (H : 2 <> 1) by lia.
  split; [exact H|].
  exact (proj1 (proj2 (get_unaffected_by_writes_to_other_ids T_movies 1 2 sample_db H))).
Defined.
